(** * DrawingBoard.vue: the undo/redo history of the drawing canvas

    A shallow embedding of the [<script setup>] block of
    [src/components/DrawingBoard.vue].  The component keeps two arrays of
    [ImageData] snapshots ([undoStack], [redoStack]) next to the canvas
    bitmap; every handler of the script is a function on the component
    state below.

    The browser's canvas API is not part of the repository.  It is modelled
    in [Module CanvasAPI]: a bitmap is the RGBA byte array that
    [getImageData] exposes, [putImageData] copies a rectangle of bytes, and
    the line rasteriser behind [ctx.stroke()] is a parameter of the
    development. *)

From Stdlib Require Import String Ascii.
From Stdlib Require Import List ZArith Lia Bool Arith PeanoNat.
Import ListNotations.

Set Implicit Arguments.

(* ------------------------------------------------------------------ *)
(** ** JavaScript arrays used as stacks *)
(* ------------------------------------------------------------------ *)

Module JsArray.
Section Ops.
Context {A : Type}.

(** [a.push(x)] appends at the end. *)
Definition push (a : list A) (x : A) : list A := a ++ [x].

(** [a[i]] is [undefined] (here [None]) outside [0 .. a.length-1]. *)
Definition index (a : list A) (i : Z) : option A :=
  if (i <? 0)%Z then None else nth_error a (Z.to_nat i).

(** [a.pop()] returns the last element ([undefined] on an empty array)
    and leaves the array without it. *)
Definition pop (a : list A) : option A * list A :=
  (index a (Z.of_nat (length a) - 1), removelast a).

(** [a.shift()] removes the first element; only the remaining array is
    used by the component. *)
Definition shift (a : list A) : list A := tl a.
End Ops.
End JsArray.

(* ------------------------------------------------------------------ *)
(** ** The canvas API, as far as the component uses it *)
(* ------------------------------------------------------------------ *)

Module CanvasAPI.

(** [ImageData]: [data] is the [Uint8ClampedArray] of RGBA bytes, row
    major, four bytes per pixel. *)
Record ImageData := mkImageData {
  width : nat;
  height : nat;
  data : list Z
}.

(** A bitmap is well formed when its array has [4 * width * height]
    bytes. *)
Definition well_formed (img : ImageData) : Prop :=
  length (data img) = 4 * (width img * height img).

(** [img] is a full frame of the canvas whose bitmap is [bm]. *)
Definition fits (bm img : ImageData) : Prop :=
  width img = width bm /\ height img = height bm /\
  length (data img) = length (data bm).

(** A new canvas is transparent black. *)
Definition blank (w h : nat) : ImageData :=
  mkImageData w h (repeat 0%Z (4 * (w * h))).

(** [ctx.getImageData(0, 0, canvas.width, canvas.height)]: a copy of the
    whole bitmap.  (A browser throws on an empty rectangle; the canvas of
    the template is 800 by 600.) *)
Definition getImageData (bitmap : ImageData) : ImageData := bitmap.

(** The byte that [putImageData(img, 0, 0)] leaves at index [i] of the
    canvas array: the byte of [img] at the same pixel and channel when
    the pixel lies inside [img], the old byte otherwise. *)
Definition putByte (img bitmap : ImageData) (i : nat) : Z :=
  let old := nth i (data bitmap) 0%Z in
  let p := i / 4 in
  let c := i mod 4 in
  let x := p mod width bitmap in
  let y := p / width bitmap in
  if (x <? width img) && (y <? height img)
  then nth (4 * (y * width img + x) + c) (data img) old
  else old.

(** [ctx.putImageData(img, 0, 0)]. *)
Definition putImageData (img bitmap : ImageData) : ImageData :=
  mkImageData (width bitmap) (height bitmap)
    (map (putByte img bitmap) (seq 0 (length (data bitmap)))).

(** [ctx.clearRect(0, 0, canvas.width, canvas.height)]: every byte
    becomes 0. *)
Definition clearRect (bitmap : ImageData) : ImageData :=
  mkImageData (width bitmap) (height bitmap)
    (map (fun _ => 0%Z) (data bitmap)).

(** The pen: [ctx.strokeStyle] and [ctx.lineWidth]. *)
Record StrokeStyle := mkStyle {
  color : string;
  lineWidth : Z
}.

Definition Point : Type := Z * Z.

(** A rasteriser gives the new value of byte [i] of the bitmap after the
    line from the first point to the second has been stroked. *)
Definition Rasteriser : Type :=
  StrokeStyle -> Point -> Point -> ImageData -> nat -> Z.

(** [beginPath(); moveTo(from); lineTo(to); stroke()]. *)
Definition strokeLine (r : Rasteriser) (st : StrokeStyle) (from to : Point)
    (bitmap : ImageData) : ImageData :=
  mkImageData (width bitmap) (height bitmap)
    (map (r st from to bitmap) (seq 0 (length (data bitmap)))).

End CanvasAPI.
Import CanvasAPI.

(* ------------------------------------------------------------------ *)
(** ** Component state *)
(* ------------------------------------------------------------------ *)

(** The three [<option>]s of the width [<select>]. *)
Inductive WidthOption := Width2 | Width5 | Width10.

(** [Number(strokeWidth.value)]. *)
Definition Number (w : WidthOption) : Z :=
  match w with Width2 => 2 | Width5 => 5 | Width10 => 10 end%Z.

Record State := mkState {
  canvas : bool;                (* canvas.value is not null *)
  ctx : bool;                   (* ctx is not null *)
  bitmap : ImageData;           (* the raster of the canvas element *)
  isDrawing : bool;
  strokeColor : string;
  strokeWidth : WidthOption;
  undoStack : list ImageData;
  redoStack : list ImageData;
  lastX : Z;
  lastY : Z
}.

Definition set_bitmap (b : ImageData) (s : State) : State :=
  mkState (canvas s) (ctx s) b (isDrawing s) (strokeColor s) (strokeWidth s)
          (undoStack s) (redoStack s) (lastX s) (lastY s).

Definition set_ctx (c : bool) (s : State) : State :=
  mkState (canvas s) c (bitmap s) (isDrawing s) (strokeColor s) (strokeWidth s)
          (undoStack s) (redoStack s) (lastX s) (lastY s).

Definition set_isDrawing (d : bool) (s : State) : State :=
  mkState (canvas s) (ctx s) (bitmap s) d (strokeColor s) (strokeWidth s)
          (undoStack s) (redoStack s) (lastX s) (lastY s).

Definition set_strokeColor (c : string) (s : State) : State :=
  mkState (canvas s) (ctx s) (bitmap s) (isDrawing s) c (strokeWidth s)
          (undoStack s) (redoStack s) (lastX s) (lastY s).

Definition set_strokeWidth (w : WidthOption) (s : State) : State :=
  mkState (canvas s) (ctx s) (bitmap s) (isDrawing s) (strokeColor s) w
          (undoStack s) (redoStack s) (lastX s) (lastY s).

Definition set_undoStack (u : list ImageData) (s : State) : State :=
  mkState (canvas s) (ctx s) (bitmap s) (isDrawing s) (strokeColor s)
          (strokeWidth s) u (redoStack s) (lastX s) (lastY s).

Definition set_redoStack (r : list ImageData) (s : State) : State :=
  mkState (canvas s) (ctx s) (bitmap s) (isDrawing s) (strokeColor s)
          (strokeWidth s) (undoStack s) r (lastX s) (lastY s).

Definition set_last (x y : Z) (s : State) : State :=
  mkState (canvas s) (ctx s) (bitmap s) (isDrawing s) (strokeColor s)
          (strokeWidth s) (undoStack s) (redoStack s) x y.

(** A handler either returns or throws; in both cases the component lives
    on in the state the handler left behind. *)
Inductive Outcome :=
| Returned (s : State)
| Threw (s : State).

Definition stateOf (o : Outcome) : State :=
  match o with Returned s => s | Threw s => s end.

(** Events, with the fields the handlers read.  Coordinates are taken in
    whole pixels; they only reach the rasteriser. *)
Record MouseEvent := mkMouse { offsetX : Z; offsetY : Z }.

(** [e.touches[0].clientX/Y] together with the [left]/[top] of
    [canvas.getBoundingClientRect()] at the time of the event. *)
Record TouchEvent := mkTouch {
  clientX : Z; clientY : Z; rectLeft : Z; rectTop : Z
}.

Record KeyboardEvent := mkKey {
  ctrlKey : bool; metaKey : bool; shiftKey : bool; key : string
}.

(** What [exportImage] hands to the browser: the [download] name and the
    [href] of the temporary link. *)
Record Download := mkDownload { download : string; href : string }.

(* ------------------------------------------------------------------ *)
(** ** Strings: [toLowerCase], [slice], [replace] *)
(* ------------------------------------------------------------------ *)

(** [String.prototype.toLowerCase] on the ASCII letters.  A key name is
    held as its UTF-8 bytes; bytes above 127 are left alone, which cannot
    turn a key into ["z"] or ["y"]: no non-ASCII character has either
    letter as its lower case. *)
Definition lowerAscii (c : ascii) : ascii :=
  let n := nat_of_ascii c in
  if (65 <=? n) && (n <=? 90) then ascii_of_nat (n + 32) else c.

Fixpoint toLowerCase (s : string) : string :=
  match s with
  | EmptyString => EmptyString
  | String c rest => String (lowerAscii c) (toLowerCase rest)
  end.

(** [s.replace(/[:-]/g, '')]. *)
Fixpoint stripColonDash (s : string) : string :=
  match s with
  | EmptyString => EmptyString
  | String c rest =>
      if (Ascii.eqb c ":" || Ascii.eqb c "-")%char
      then stripColonDash rest
      else String c (stripColonDash rest)
  end.

(** The [download] name built from [new Date().toISOString()]. *)
Definition fileName (iso : string) : string :=
  ("drawing-" ++ stripColonDash (substring 0 19 iso) ++ ".png")%string.

(* ------------------------------------------------------------------ *)
(** ** The handlers of the script *)
(* ------------------------------------------------------------------ *)

(** [computed(() => undoStack.value.length > 1)] *)
Definition canUndo (s : State) : bool := 1 <? length (undoStack s).

(** [computed(() => redoStack.value.length > 0)] *)
Definition canRedo (s : State) : bool := 0 <? length (redoStack s).

(** The refs and variables as the script declares them, before
    [onMounted] runs.  [el] is the canvas element the template ref is
    bound to, given by its [width] and [height] attributes ([None] when the
    ref stays [null]); the template has [Some (800, 600)]. *)
Definition setup (el : option (nat * nat)) : State :=
  mkState
    (match el with Some _ => true | None => false end)
    false
    (match el with Some (w, h) => blank w h | None => blank 0 0 end)
    false "#000000" Width5 [] [] 0 0.

Definition saveState (s : State) : State :=
  if negb (ctx s) || negb (canvas s) then s
  else
    let s1 := set_undoStack
                (JsArray.push (undoStack s) (getImageData (bitmap s))) s in
    let s2 := set_redoStack [] s1 in
    if 50 <? length (undoStack s2)
    then set_undoStack (JsArray.shift (undoStack s2)) s2
    else s2.

(** [onMounted]; [has2d] tells whether [getContext('2d')] gives a
    context.  [lineCap] and [lineJoin] are settings of the rasteriser. *)
Definition onMounted (has2d : bool) (s : State) : State :=
  if canvas s then
    let s1 := set_ctx has2d s in
    if ctx s1 then saveState s1 else s1
  else s.

Definition undo (s : State) : Outcome :=
  if negb (ctx s) || negb (canvas s) || negb (canUndo s) then Returned s
  else
    let currentState := getImageData (bitmap s) in
    let s1 := set_redoStack (JsArray.push (redoStack s) currentState) s in
    let s2 := set_undoStack (snd (JsArray.pop (undoStack s1))) s1 in
    match JsArray.index (undoStack s2)
                        (Z.of_nat (length (undoStack s2)) - 1) with
    | Some lastState =>
        Returned (set_bitmap (putImageData lastState (bitmap s2)) s2)
    | None => Threw s2         (* putImageData(undefined, 0, 0) *)
    end.

Definition redo (s : State) : Outcome :=
  if negb (ctx s) || negb (canvas s) || negb (canRedo s) then Returned s
  else
    let (popped, rest) := JsArray.pop (redoStack s) in
    let s1 := set_redoStack rest s in
    let currentState := getImageData (bitmap s1) in
    let s2 := set_undoStack (JsArray.push (undoStack s1) currentState) s1 in
    match popped with
    | Some redoState =>
        Returned (set_bitmap (putImageData redoState (bitmap s2)) s2)
    | None => Threw s2         (* putImageData(undefined, 0, 0) *)
    end.

(** [e.preventDefault()] only stops the browser's own shortcut; it does
    not touch the component. *)
Definition handleKeyDown (e : KeyboardEvent) (s : State) : Outcome :=
  if (ctrlKey e || metaKey e) && String.eqb (toLowerCase (key e)) "z" then
    if shiftKey e then redo s else undo s
  else if (ctrlKey e || metaKey e) && String.eqb (toLowerCase (key e)) "y"
  then redo s
  else Returned s.

Definition startDrawing (e : MouseEvent) (s : State) : State :=
  set_last (offsetX e) (offsetY e) (set_isDrawing true s).

Definition handleTouchStart (e : TouchEvent) (s : State) : State :=
  if negb (canvas s) then s
  else
    set_isDrawing true
      (set_last (clientX e - rectLeft e) (clientY e - rectTop e) s).

Definition stopDrawing (s : State) : State :=
  if isDrawing s then set_isDrawing false (saveState s) else s.

Definition clearCanvas (s : State) : State :=
  if negb (ctx s) || negb (canvas s) then s
  else saveState (set_bitmap (clearRect (bitmap s)) s).

Section Rendering.

(** What the browser does behind [ctx.stroke()] and
    [canvas.toDataURL('image/png')]. *)
Variable raster : Rasteriser.
Variable toDataURL : ImageData -> string.

Definition pen (s : State) : StrokeStyle :=
  mkStyle (strokeColor s) (Number (strokeWidth s)).

Definition draw (e : MouseEvent) (s : State) : State :=
  if negb (isDrawing s) || negb (ctx s) then s
  else
    let b := strokeLine raster (pen s) (lastX s, lastY s)
                        (offsetX e, offsetY e) (bitmap s) in
    set_last (offsetX e) (offsetY e) (set_bitmap b s).

Definition handleTouchMove (e : TouchEvent) (s : State) : State :=
  if negb (isDrawing s) || negb (ctx s) || negb (canvas s) then s
  else
    let x := (clientX e - rectLeft e)%Z in
    let y := (clientY e - rectTop e)%Z in
    let b := strokeLine raster (pen s) (lastX s, lastY s) (x, y)
                        (bitmap s) in
    set_last x y (set_bitmap b s).

(** [exportImage]; [iso] is [new Date().toISOString()].  The second
    component is the link that is clicked, if any. *)
Definition exportImage (iso : string) (s : State) : State * option Download :=
  if negb (canvas s) then (s, None)
  else (s, Some (mkDownload (fileName iso) (toDataURL (bitmap s)))).

(** *** Calls and reachable states *)

(** The functions of the script a template event, the key listener or
    another function of the script can call, with the two [v-model]
    controls. *)
Inductive Call :=
| CallSaveState
| CallUndo
| CallRedo
| CallHandleKeyDown (e : KeyboardEvent)
| CallStartDrawing (e : MouseEvent)
| CallDraw (e : MouseEvent)
| CallHandleTouchStart (e : TouchEvent)
| CallHandleTouchMove (e : TouchEvent)
| CallStopDrawing
| CallClearCanvas
| CallExportImage (iso : string)
| PickColor (c : string)
| PickWidth (w : WidthOption).

Definition run (c : Call) (s : State) : Outcome :=
  match c with
  | CallSaveState => Returned (saveState s)
  | CallUndo => undo s
  | CallRedo => redo s
  | CallHandleKeyDown e => handleKeyDown e s
  | CallStartDrawing e => Returned (startDrawing e s)
  | CallDraw e => Returned (draw e s)
  | CallHandleTouchStart e => Returned (handleTouchStart e s)
  | CallHandleTouchMove e => Returned (handleTouchMove e s)
  | CallStopDrawing => Returned (stopDrawing s)
  | CallClearCanvas => Returned (clearCanvas s)
  | CallExportImage iso => Returned (fst (exportImage iso s))
  | PickColor c => Returned (set_strokeColor c s)
  | PickWidth w => Returned (set_strokeWidth w s)
  end.

(** Running a list of calls, first call first. *)
Definition exec (cs : list Call) (s : State) : State :=
  fold_left (fun st c => stateOf (run c st)) cs s.

(** The states the component can be in after it was mounted on [el]. *)
Inductive reachable (el : option (nat * nat)) (has2d : bool)
  : State -> Prop :=
| reach_mounted : reachable el has2d (onMounted has2d (setup el))
| reach_call s c :
    reachable el has2d s -> reachable el has2d (stateOf (run c s)).

(** *** Strokes *)

(** A stroke as the user makes it: press, drag, release, with the mouse
    ([mousedown], [mousemove]s, [mouseup]) or a finger ([touchstart],
    [touchmove]s, [touchend]). *)
Inductive Stroke :=
| MouseStroke (down : MouseEvent) (moves : list MouseEvent)
| TouchStroke (start : TouchEvent) (moves : list TouchEvent).

Definition commitStroke (k : Stroke) (s : State) : State :=
  match k with
  | MouseStroke down moves =>
      stopDrawing
        (fold_left (fun st e => draw e st) moves (startDrawing down s))
  | TouchStroke start moves =>
      stopDrawing
        (fold_left (fun st e => handleTouchMove e st) moves
                   (handleTouchStart start s))
  end.

Definition commitStrokes (ks : list Stroke) (s : State) : State :=
  fold_left (fun st k => commitStroke k st) ks s.

End Rendering.

(** [undo()] called [n] times in a row. *)
Fixpoint undoTimes (n : nat) (s : State) : State :=
  match n with
  | 0 => s
  | S n' => undoTimes n' (stateOf (undo s))
  end.

(** The last element of the undo stack, [undoStack.value[length - 1]]. *)
Definition undoTop (s : State) : option ImageData :=
  JsArray.index (undoStack s) (Z.of_nat (length (undoStack s)) - 1).

(* ------------------------------------------------------------------ *)
(** ** Invariants *)
(* ------------------------------------------------------------------ *)

(** Every snapshot is a full frame of the canvas. *)
Definition consistent (s : State) : Prop :=
  well_formed (bitmap s) /\
  Forall (fits (bitmap s)) (undoStack s) /\
  Forall (fits (bitmap s)) (redoStack s).

(** Without a context (or a canvas) nothing is ever recorded. *)
Definition idle_without_context (s : State) : Prop :=
  ctx s && canvas s = false -> undoStack s = [] /\ redoStack s = [].

(** The two stacks together hold at most 50 snapshots. *)
Definition history_bounded (s : State) : Prop :=
  length (undoStack s) + length (redoStack s) <= 50.

(** What every reachable state satisfies. *)
Definition invariant (s : State) : Prop :=
  history_bounded s /\ idle_without_context s /\ consistent s.

(** The history is in step with the canvas: the context exists and the
    last snapshot of the undo stack is what the canvas shows. *)
Definition in_step (s : State) : Prop :=
  ctx s = true /\ canvas s = true /\ invariant s /\
  undoTop s = Some (bitmap s).

(** The three operations of the history itself. *)
Definition historyCall (c : Call) : bool :=
  match c with
  | CallSaveState | CallUndo | CallRedo => true
  | _ => false
  end.

(** Nothing was ever painted: canvas and snapshots are all the blank
    [w] by [h] canvas. *)
Definition all_blank (w h : nat) (s : State) : Prop :=
  bitmap s = blank w h /\
  Forall (eq (blank w h)) (undoStack s) /\
  Forall (eq (blank w h)) (redoStack s).

(** While the pointer moves, only the bitmap and the last point change. *)
Definition keeps_history (s s' : State) : Prop :=
  ctx s' = ctx s /\ canvas s' = canvas s /\ isDrawing s' = isDrawing s /\
  undoStack s' = undoStack s /\ redoStack s' = redoStack s /\
  (invariant s -> invariant s').

(* ------------------------------------------------------------------ *)
(** ** A rasteriser for concrete traces *)
(* ------------------------------------------------------------------ *)

(** Paints the pixel under the end point of the line opaque white and
    leaves every other byte as it was. *)
Definition inkEndPoint : Rasteriser :=
  fun _ _ to bm i =>
    if i / 4 =? Z.to_nat (snd to) * width bm + Z.to_nat (fst to)
    then 255%Z
    else nth i (data bm) 0%Z.

(** A PNG encoder stand-in for concrete traces. *)
Definition noEncoder : ImageData -> string := fun _ => "data:image/png"%string.

(* ------------------------------------------------------------------ *)
(** ** Concrete traces on a canvas two pixels wide and one high *)
(* ------------------------------------------------------------------ *)

Definition demoMounted : State := onMounted true (setup (Some (2, 1))).

(** Press on the left pixel, drag to the right pixel, release. *)
Definition demoStroke : list Call :=
  [CallStartDrawing (mkMouse 0 0); CallDraw (mkMouse 1 0); CallStopDrawing].

(** Press on the right pixel, drag to the left pixel, release. *)
Definition demoStrokeBack : list Call :=
  [CallStartDrawing (mkMouse 1 0); CallDraw (mkMouse 0 0); CallStopDrawing].

(** The bitmap after [demoStroke]: the right pixel is painted. *)
Definition demoInked : ImageData :=
  mkImageData 2 1 [0; 0; 0; 0; 255; 255; 255; 255]%Z.

Definition demoRun (cs : list Call) : State :=
  exec inkEndPoint noEncoder cs demoMounted.


(* ------------------------------------------------------------------ *)
(** ** Paths, translated touches and the snapshots of a run *)
(* ------------------------------------------------------------------ *)

(** The point a mouse event reports. *)
Definition mousePoint (e : MouseEvent) : Point := (offsetX e, offsetY e).

(** The mouse event that reports the canvas point of a touch:
    [clientX - rect.left], [clientY - rect.top]. *)
Definition touchAsMouse (e : TouchEvent) : MouseEvent :=
  mkMouse (clientX e - rectLeft e) (clientY e - rectTop e).

(** The open polyline from [from] through [pts], one [strokeLine] per
    segment, in order. *)
Fixpoint strokePath (r : Rasteriser) (st : StrokeStyle) (from : Point)
    (pts : list Point) (bm : ImageData) : ImageData :=
  match pts with
  | [] => bm
  | p :: rest => strokePath r st p rest (strokeLine r st from p bm)
  end.

(** The last [n] elements of a list (all of it when it is shorter). *)
Definition lastN {A : Type} (n : nat) (l : list A) : list A :=
  skipn (length l - n) l.

(** The bitmaps on display after each stroke of [ks], in order. *)
Fixpoint bitmapsAfter (r : Rasteriser) (ks : list Stroke) (s : State)
  : list ImageData :=
  match ks with
  | [] => []
  | k :: rest =>
      bitmap (commitStroke r k s) :: bitmapsAfter r rest (commitStroke r k s)
  end.

(** The calls that never touch the two stacks: pointer presses and
    moves, the two pickers and the export. *)
Definition passiveCall (c : Call) : bool :=
  match c with
  | CallStartDrawing _ | CallDraw _ | CallHandleTouchStart _
  | CallHandleTouchMove _ | CallExportImage _ | PickColor _ | PickWidth _ =>
      true
  | _ => false
  end.

(** [c] is none of the separators that [exportImage] strips. *)
Definition keptChar (c : ascii) : bool :=
  negb (Ascii.eqb c ":" || Ascii.eqb c "-")%char.

(** [YYYY-MM-DDTHH:mm:ss] followed by [tail], as [toISOString] writes a
    date of the years 0 to 9999 ([tail] is [.sssZ]). *)
Definition isoString (y1 y2 y3 y4 mo1 mo2 d1 d2 h1 h2 mi1 mi2 s1 s2 : ascii)
    (tail : string) : string :=
  String y1 (String y2 (String y3 (String y4 (String "-"
  (String mo1 (String mo2 (String "-"
  (String d1 (String d2 (String "T"
  (String h1 (String h2 (String ":"
  (String mi1 (String mi2 (String ":"
  (String s1 (String s2 tail)))))))))))))))))).

(** The same fields without the separators. *)
Definition compactStamp (y1 y2 y3 y4 mo1 mo2 d1 d2 h1 h2 mi1 mi2 s1 s2 : ascii)
  : string :=
  String y1 (String y2 (String y3 (String y4
  (String mo1 (String mo2
  (String d1 (String d2 (String "T"
  (String h1 (String h2
  (String mi1 (String mi2
  (String s1 (String s2 EmptyString)))))))))))))).
(* ------------------------------------------------------------------ *)
(** ** Facts about arrays *)
(* ------------------------------------------------------------------ *)

Module JsArrayFacts.
Import JsArray.
Section Facts.
Context {A : Type}.
Implicit Types (a : list A) (x : A).

Lemma length_push a x : length (push a x) = S (length a).
Proof. unfold push. rewrite length_app. simpl. lia. Qed.

Lemma index_last_push a x :
  index (push a x) (Z.of_nat (length (push a x)) - 1) = Some x.
Proof.
  unfold index. rewrite length_push.
  destruct (Z.ltb_spec (Z.of_nat (S (length a)) - 1) 0) as [H|H]; [lia|].
  replace (Z.to_nat (Z.of_nat (S (length a)) - 1)) with (length a) by lia.
  unfold push. rewrite nth_error_app2 by lia.
  now rewrite Nat.sub_diag.
Qed.

Lemma pop_push a x : pop (push a x) = (Some x, a).
Proof.
  unfold pop. rewrite index_last_push.
  unfold push. now rewrite removelast_last.
Qed.

Lemma removelast_push a x : removelast (push a x) = a.
Proof. unfold push. apply removelast_last. Qed.

Lemma index_last_nil : index (@nil A) (Z.of_nat (length (@nil A)) - 1) = None.
Proof. reflexivity. Qed.

(** Every non-empty array is some array with one element pushed. *)
Lemma nonempty_is_push a : 0 < length a -> exists b x, a = push b x.
Proof.
  intros H. destruct (@exists_last A a) as (b & x & E).
  - intros ->. simpl in H. lia.
  - exists b, x. exact E.
Qed.

Lemma length_pop a : length (snd (pop a)) = length a - 1.
Proof.
  destruct a as [|y a']; [reflexivity|].
  assert (Hpos : 0 < length (y :: a')) by (simpl; lia).
  destruct (nonempty_is_push (y :: a') Hpos) as (b & x & E).
  rewrite E, pop_push, length_push. simpl. lia.
Qed.

Lemma length_shift a : length (shift a) = length a - 1.
Proof. destruct a; simpl; lia. Qed.

Lemma Forall_push (P : A -> Prop) a x :
  Forall P a -> P x -> Forall P (push a x).
Proof. intros Ha Hx. apply Forall_app. split; [exact Ha | now constructor]. Qed.

Lemma Forall_push_inv (P : A -> Prop) a x :
  Forall P (push a x) -> Forall P a /\ P x.
Proof.
  intros H. apply Forall_app in H. destruct H as [Ha Hx].
  split; [exact Ha | now inversion Hx].
Qed.

Lemma Forall_shift (P : A -> Prop) a : Forall P a -> Forall P (shift a).
Proof. intros H. destruct a; simpl; [constructor | now inversion H]. Qed.

Lemma Forall_pop (P : A -> Prop) a : Forall P a -> Forall P (snd (pop a)).
Proof.
  intros H. destruct a as [|y a']; [constructor|].
  assert (Hpos : 0 < length (y :: a')) by (simpl; lia).
  destruct (nonempty_is_push (y :: a') Hpos) as (b & x & E).
  rewrite E in *. rewrite pop_push. simpl.
  now apply Forall_push_inv in H.
Qed.
End Facts.
End JsArrayFacts.

(* ------------------------------------------------------------------ *)
(** ** Facts about the canvas API *)
(* ------------------------------------------------------------------ *)

Module CanvasFacts.

Lemma fits_refl bm : fits bm bm.
Proof. now repeat split. Qed.

Lemma fits_trans a b c : fits a b -> fits b c -> fits a c.
Proof. unfold fits. intuition congruence. Qed.

Lemma fits_sym a b : fits a b -> fits b a.
Proof. unfold fits. intuition congruence. Qed.

Lemma map_nth_seq_id (l : list Z) (d : Z) :
  map (fun i => nth i l d) (seq 0 (length l)) = l.
Proof.
  induction l as [|x l IH]; [reflexivity|].
  simpl. f_equal. rewrite <- seq_shift, map_map. exact IH.
Qed.

(** Inside a full frame, [putImageData] takes every byte from the
    image. *)
Lemma putByte_full img bm i :
  well_formed bm -> fits bm img -> i < length (data bm) ->
  putByte img bm i = nth i (data img) 0%Z.
Proof.
  unfold well_formed, fits, putByte. intros Hwf (Hw & Hh & Hl) Hi.
  rewrite Hw, Hh.
  set (w := width bm) in *. set (h := height bm) in *.
  rewrite Hwf in Hi.
  assert (Hwpos : 0 < w) by nia.
  assert (Hp : i / 4 < w * h)
    by (apply Nat.Div0.div_lt_upper_bound; lia).
  assert (Hx : i / 4 mod w < w) by (apply Nat.mod_upper_bound; lia).
  assert (Hy : i / 4 / w < h)
    by (apply Nat.Div0.div_lt_upper_bound; lia).
  apply Nat.ltb_lt in Hx, Hy. rewrite Hx, Hy. simpl andb. cbv iota.
  assert (E : 4 * (i / 4 / w * w + i / 4 mod w) + i mod 4 = i).
  { pose proof (Nat.div_mod_eq (i / 4) w) as E1.
    pose proof (Nat.div_mod_eq i 4) as E2. nia. }
  rewrite E. apply nth_indep. lia.
Qed.

Lemma putImageData_fits img bm :
  well_formed bm -> fits bm img -> putImageData img bm = img.
Proof.
  intros Hwf Hfit. unfold putImageData.
  rewrite (map_ext_in _ (fun i => nth i (data img) 0%Z)).
  - destruct Hfit as (Hw & Hh & Hl). rewrite <- Hl, map_nth_seq_id.
    rewrite <- Hw, <- Hh. now destruct img.
  - intros i Hi. apply in_seq in Hi. apply putByte_full; auto. lia.
Qed.

Lemma fits_putImageData img bm : fits bm (putImageData img bm).
Proof.
  unfold fits, putImageData. simpl.
  now rewrite length_map, length_seq.
Qed.

Lemma fits_strokeLine r st p q bm : fits bm (strokeLine r st p q bm).
Proof.
  unfold fits, strokeLine. simpl.
  now rewrite length_map, length_seq.
Qed.

Lemma fits_clearRect bm : fits bm (clearRect bm).
Proof. unfold fits, clearRect. simpl. now rewrite length_map. Qed.

Lemma well_formed_fits bm img : well_formed bm -> fits bm img -> well_formed img.
Proof. unfold well_formed, fits. intros H (-> & -> & ->). exact H. Qed.

Lemma well_formed_blank w h : well_formed (blank w h).
Proof. unfold well_formed, blank. simpl. now rewrite repeat_length. Qed.

(** Clearing a well-formed bitmap gives the blank canvas of its size. *)
Lemma clearRect_blank bm :
  well_formed bm -> clearRect bm = blank (width bm) (height bm).
Proof.
  unfold well_formed, clearRect, blank. intros H. f_equal.
  rewrite <- H. clear H. induction (data bm) as [|x l IH]; simpl; congruence.
Qed.

End CanvasFacts.

(* ------------------------------------------------------------------ *)
(** ** What the three history operations do *)
(* ------------------------------------------------------------------ *)

Import JsArray JsArrayFacts CanvasFacts.

#[local] Arguments push : simpl never.
#[local] Arguments pop : simpl never.
#[local] Arguments index : simpl never.
#[local] Arguments shift : simpl never.
#[local] Arguments putImageData : simpl never.

Lemma saveState_guard s :
  ctx s && canvas s = false -> saveState s = s.
Proof.
  unfold saveState. intros H.
  destruct (ctx s), (canvas s); simpl in *; congruence.
Qed.

(** With a context, [saveState] pushes the bitmap, empties the redo stack
    and drops the first snapshot when there are more than 50. *)
Lemma saveState_acts s :
  ctx s = true -> canvas s = true ->
  saveState s =
  mkState (canvas s) (ctx s) (bitmap s) (isDrawing s) (strokeColor s)
          (strokeWidth s)
          (if 50 <? length (push (undoStack s) (bitmap s))
           then shift (push (undoStack s) (bitmap s))
           else push (undoStack s) (bitmap s))
          [] (lastX s) (lastY s).
Proof.
  destruct s as [v c b d sc sw u r x y]. simpl. intros -> ->.
  unfold saveState, getImageData. simpl.
  now destruct (50 <? length (push u b)).
Qed.

Lemma undo_guard s :
  ctx s && canvas s = false \/ length (undoStack s) <= 1 ->
  undo s = Returned s.
Proof.
  unfold undo, canUndo. intros [H|H].
  - destruct (ctx s), (canvas s); simpl in *; congruence.
  - apply Nat.ltb_ge in H. rewrite H. simpl.
    now rewrite !orb_true_r.
Qed.

(** An undo stack with at least two snapshots ends in two pushes. *)
Lemma two_pushes (u : list ImageData) :
  1 < length u -> exists l a b, u = push (push l a) b.
Proof.
  intros H.
  destruct (nonempty_is_push u) as (u' & b & ->); [lia|].
  rewrite length_push in H.
  destruct (nonempty_is_push u') as (l & a & ->); [lia|].
  now exists l, a, b.
Qed.

Lemma undo_acts s l a b :
  ctx s = true -> canvas s = true -> undoStack s = push (push l a) b ->
  undo s =
  Returned
    (mkState (canvas s) (ctx s) (putImageData a (bitmap s)) (isDrawing s)
             (strokeColor s) (strokeWidth s) (push l a)
             (push (redoStack s) (bitmap s)) (lastX s) (lastY s)).
Proof.
  destruct s as [v c bm d sc sw u r x y]. simpl. intros -> -> ->.
  unfold undo, canUndo, getImageData. simpl.
  rewrite !length_push. simpl.
  now rewrite removelast_push, index_last_push.
Qed.

Lemma redo_guard s :
  ctx s && canvas s = false \/ redoStack s = [] ->
  redo s = Returned s.
Proof.
  unfold redo, canRedo. intros [H|H].
  - destruct (ctx s), (canvas s); simpl in *; congruence.
  - rewrite H. simpl. now rewrite !orb_true_r.
Qed.

Lemma redo_acts s r x :
  ctx s = true -> canvas s = true -> redoStack s = push r x ->
  redo s =
  Returned
    (mkState (canvas s) (ctx s) (putImageData x (bitmap s)) (isDrawing s)
             (strokeColor s) (strokeWidth s)
             (push (undoStack s) (bitmap s)) r (lastX s) (lastY s)).
Proof.
  destruct s as [v c bm d sc sw u rs x0 y]. simpl. intros -> -> ->.
  unfold redo, canRedo, getImageData.
  cbn [redoStack ctx canvas negb orb]. rewrite pop_push, length_push.
  reflexivity.
Qed.

(** The three ways [undo] and [redo] can go. *)
Lemma undo_cases s :
  undo s = Returned s /\ (ctx s && canvas s = false \/ length (undoStack s) <= 1)
  \/ exists l a b,
       ctx s = true /\ canvas s = true /\ undoStack s = push (push l a) b /\
       undo s =
       Returned
         (mkState (canvas s) (ctx s) (putImageData a (bitmap s)) (isDrawing s)
                  (strokeColor s) (strokeWidth s) (push l a)
                  (push (redoStack s) (bitmap s)) (lastX s) (lastY s)).
Proof.
  destruct (ctx s && canvas s) eqn:Hcv.
  - destruct (Nat.le_gt_cases (length (undoStack s)) 1) as [Hle|Hgt].
    + left. split; [apply undo_guard|]; auto.
    + right. apply andb_prop in Hcv. destruct Hcv as [Hc Hv].
      destruct (two_pushes _ Hgt) as (l & a & b & Hu).
      exists l, a, b. repeat split; auto. now apply undo_acts with (b := b).
  - left. split; [apply undo_guard|]; auto.
Qed.

Lemma redo_cases s :
  redo s = Returned s /\ (ctx s && canvas s = false \/ redoStack s = [])
  \/ exists r x,
       ctx s = true /\ canvas s = true /\ redoStack s = push r x /\
       redo s =
       Returned
         (mkState (canvas s) (ctx s) (putImageData x (bitmap s)) (isDrawing s)
                  (strokeColor s) (strokeWidth s)
                  (push (undoStack s) (bitmap s)) r (lastX s) (lastY s)).
Proof.
  destruct (ctx s && canvas s) eqn:Hcv.
  - destruct (redoStack s) as [|y r'] eqn:Hr.
    + left. split; [apply redo_guard|]; auto.
    + right. apply andb_prop in Hcv. destruct Hcv as [Hc Hv].
      destruct (nonempty_is_push (y :: r')) as (r & x & E); [simpl; lia|].
      exists r, x. repeat split; auto. apply redo_acts; congruence.
  - left. split; [apply redo_guard|]; auto.
Qed.



(* ------------------------------------------------------------------ *)
(** ** The invariant of the history *)
(* ------------------------------------------------------------------ *)

Lemma fits_rebase bm bm' img : fits bm bm' -> fits bm img -> fits bm' img.
Proof. unfold fits. intuition congruence. Qed.

Lemma Forall_fits_rebase bm bm' l :
  fits bm bm' -> Forall (fits bm) l -> Forall (fits bm') l.
Proof.
  intros Hb Hl. eapply Forall_impl; [|exact Hl].
  intros img. now apply fits_rebase.
Qed.

Ltac split_invariant :=
  split; [|split; [|split; [|split]]].

(** Painting on the canvas keeps the invariant: the stacks are untouched
    and the bitmap keeps its size. *)
Lemma repaint_invariant s b :
  fits (bitmap s) b -> invariant s -> invariant (set_bitmap b s).
Proof.
  intros Hb (Hbound & Hidle & Hwf & Hu & Hr).
  split_invariant; simpl.
  - exact Hbound.
  - exact Hidle.
  - eapply well_formed_fits; eauto.
  - eapply Forall_fits_rebase; eauto.
  - eapply Forall_fits_rebase; eauto.
Qed.

Lemma saveState_invariant s : invariant s -> invariant (saveState s).
Proof.
  intros Hinv. destruct (ctx s && canvas s) eqn:Hcv.
  - apply andb_prop in Hcv. destruct Hcv as [Hc Hv].
    rewrite saveState_acts by assumption.
    destruct Hinv as (Hbound & Hidle & Hwf & Hu & Hr).
    unfold history_bounded in Hbound.
    assert (Hpush : Forall (fits (bitmap s)) (push (undoStack s) (bitmap s)))
      by (apply Forall_push; [exact Hu | apply fits_refl]).
    split_invariant; simpl.
    + unfold history_bounded. simpl.
      destruct (Nat.ltb_spec 50 (length (push (undoStack s) (bitmap s))))
        as [H|H]; rewrite ?length_shift, length_push in *; lia.
    + intros Hoff. simpl in Hoff. rewrite Hc, Hv in Hoff. discriminate.
    + exact Hwf.
    + destruct (50 <? length (push (undoStack s) (bitmap s)));
        [now apply Forall_shift | exact Hpush].
    + constructor.
  - now rewrite saveState_guard.
Qed.

Lemma undo_invariant s : invariant s -> invariant (stateOf (undo s)).
Proof.
  intros Hinv.
  destruct (undo_cases s) as [[E _]|(l & a & b & Hc & Hv & Hu & E)];
    rewrite E; simpl stateOf; [exact Hinv|].
  destruct Hinv as (Hbound & Hidle & Hwf & Hfu & Hfr).
  unfold history_bounded in Hbound. rewrite Hu in Hbound, Hfu.
  rewrite !length_push in Hbound.
  pose proof (fits_putImageData a (bitmap s)) as Hfit.
  apply Forall_push_inv in Hfu. destruct Hfu as [Hfu _].
  split_invariant; simpl.
  - unfold history_bounded. simpl. rewrite !length_push. lia.
  - intros Hoff. simpl in Hoff. rewrite Hc, Hv in Hoff. discriminate.
  - eapply well_formed_fits; eauto.
  - eapply Forall_fits_rebase; eauto.
  - eapply Forall_fits_rebase; eauto.
    apply Forall_push; [exact Hfr | apply fits_refl].
Qed.

Lemma redo_invariant s : invariant s -> invariant (stateOf (redo s)).
Proof.
  intros Hinv.
  destruct (redo_cases s) as [[E _]|(r & x & Hc & Hv & Hr & E)];
    rewrite E; simpl stateOf; [exact Hinv|].
  destruct Hinv as (Hbound & Hidle & Hwf & Hfu & Hfr).
  unfold history_bounded in Hbound. rewrite Hr in Hbound, Hfr.
  rewrite length_push in Hbound.
  pose proof (fits_putImageData x (bitmap s)) as Hfit.
  apply Forall_push_inv in Hfr. destruct Hfr as [Hfr _].
  split_invariant; simpl.
  - unfold history_bounded. simpl. rewrite length_push. lia.
  - intros Hoff. simpl in Hoff. rewrite Hc, Hv in Hoff. discriminate.
  - eapply well_formed_fits; eauto.
  - eapply Forall_fits_rebase; eauto.
    apply Forall_push; [exact Hfu | apply fits_refl].
  - eapply Forall_fits_rebase; eauto.
Qed.

Lemma handleKeyDown_invariant e s :
  invariant s -> invariant (stateOf (handleKeyDown e s)).
Proof.
  intros Hinv. unfold handleKeyDown.
  destruct ((ctrlKey e || metaKey e) && (toLowerCase (key e) =? "z")%string).
  - destruct (shiftKey e); [now apply redo_invariant | now apply undo_invariant].
  - destruct ((ctrlKey e || metaKey e) && (toLowerCase (key e) =? "y")%string);
      [now apply redo_invariant | exact Hinv].
Qed.

Lemma stopDrawing_invariant s : invariant s -> invariant (stopDrawing s).
Proof.
  intros Hinv. unfold stopDrawing.
  destruct (isDrawing s); [|exact Hinv].
  exact (saveState_invariant Hinv).
Qed.

Lemma clearCanvas_invariant s : invariant s -> invariant (clearCanvas s).
Proof.
  intros Hinv. unfold clearCanvas.
  destruct (negb (ctx s) || negb (canvas s)); [exact Hinv|].
  apply saveState_invariant, repaint_invariant; [apply fits_clearRect | exact Hinv].
Qed.

Section Reachability.

Variable raster : Rasteriser.
Variable toDataURL : ImageData -> string.

Lemma draw_invariant e s : invariant s -> invariant (draw raster e s).
Proof.
  intros Hinv. unfold draw.
  destruct (negb (isDrawing s) || negb (ctx s)); [exact Hinv|].
  exact (repaint_invariant (fits_strokeLine _ _ _ _ _) Hinv).
Qed.

Lemma handleTouchMove_invariant e s :
  invariant s -> invariant (handleTouchMove raster e s).
Proof.
  intros Hinv. unfold handleTouchMove.
  destruct (negb (isDrawing s) || negb (ctx s) || negb (canvas s));
    [exact Hinv|].
  exact (repaint_invariant (fits_strokeLine _ _ _ _ _) Hinv).
Qed.

Lemma run_invariant c s :
  invariant s -> invariant (stateOf (run raster toDataURL c s)).
Proof.
  intros Hinv. destruct c; simpl.
  - now apply saveState_invariant.
  - now apply undo_invariant.
  - now apply redo_invariant.
  - now apply handleKeyDown_invariant.
  - exact Hinv.
  - now apply draw_invariant.
  - unfold handleTouchStart. destruct (negb (canvas s)); exact Hinv.
  - now apply handleTouchMove_invariant.
  - now apply stopDrawing_invariant.
  - now apply clearCanvas_invariant.
  - unfold exportImage. destruct (negb (canvas s)); exact Hinv.
  - exact Hinv.
  - exact Hinv.
Qed.


Lemma setup_invariant el : invariant (setup el).
Proof.
  destruct el as [[w h]|]; split_invariant; simpl;
    try apply well_formed_blank; try constructor; auto.
  all: unfold history_bounded; simpl; lia.
Qed.

Lemma onMounted_invariant has2d el : invariant (onMounted has2d (setup el)).
Proof.
  unfold onMounted. pose proof (setup_invariant el) as Hinv.
  destruct (canvas (setup el)) eqn:Hv; [|exact Hinv].
  destruct has2d; simpl ctx; cbv iota.
  - apply saveState_invariant.
    destruct Hinv as (Hb & Hi & Hc). split; [exact Hb|]. split; [|exact Hc].
    intros _. destruct el as [[w h]|]; now simpl.
  - destruct Hinv as (Hb & Hi & Hc). split; [exact Hb|]. split; [|exact Hc].
    intros _. destruct el as [[w h]|]; now simpl.
Qed.

Lemma reachable_invariant el has2d s :
  reachable raster toDataURL el has2d s -> invariant s.
Proof.
  induction 1 as [|s c _ IH].
  - apply onMounted_invariant.
  - now apply run_invariant.
Qed.

End Reachability.

(* ------------------------------------------------------------------ *)
(** ** Bounds on the history *)
(* ------------------------------------------------------------------ *)

Section Bounds.

Variable raster : Rasteriser.
Variable toDataURL : ImageData -> string.

Lemma reachable_exec el has2d cs s :
  reachable raster toDataURL el has2d s ->
  reachable raster toDataURL el has2d (exec raster toDataURL cs s).
Proof.
  revert s. induction cs as [|c cs IH]; intros s Hs; simpl.
  - exact Hs.
  - apply IH. now apply reach_call.
Qed.

(** In a reachable state a stack that is not empty means the guards on
    the context pass. *)
Lemma reachable_context el has2d s :
  reachable raster toDataURL el has2d s ->
  0 < length (undoStack s) + length (redoStack s) ->
  ctx s = true /\ canvas s = true.
Proof.
  intros Hs Hlen. apply reachable_invariant in Hs.
  destruct Hs as (_ & Hidle & _).
  destruct (ctx s && canvas s) eqn:Hcv.
  - now apply andb_prop in Hcv.
  - destruct (Hidle Hcv) as [Hu Hr]. rewrite Hu, Hr in Hlen.
    simpl in Hlen. lia.
Qed.

(** C1. In every state reachable after mount, by any sequence of calls
    ([saveState], [undo], [redo], stroke commits, clears and all the
    other handlers), the undo stack has at most 50 entries; and when the
    push of [saveState] makes it longer than 50, the stack it leaves is
    the pushed stack without its first (oldest) entry. *)
Theorem undo_stack_at_most_50 el has2d s :
  reachable raster toDataURL el has2d s ->
  length (undoStack s) <= 50 /\
  (50 < length (undoStack s ++ [getImageData (bitmap s)]) ->
   undoStack (saveState s) = tl (undoStack s ++ [getImageData (bitmap s)])).
Proof.
  intros Hs. pose proof (reachable_invariant Hs) as (Hbound & Hidle & _).
  unfold history_bounded in Hbound. split; [lia|].
  intros Hlong. rewrite length_app in Hlong. simpl in Hlong.
  destruct (reachable_context Hs) as [Hc Hv]; [lia|].
  rewrite saveState_acts by assumption. simpl.
  rewrite length_push.
  destruct (Nat.ltb_spec 50 (S (length (undoStack s)))) as [_|H]; [|lia].
  reflexivity.
Qed.

(** C10. In every state reachable after mount the two stacks together
    hold at most 50 snapshots: [saveState] leaves an empty redo stack and
    an undo stack of at most 50, [undo] and [redo] keep the sum of the
    two lengths, and each of them, when its guard passes, moves exactly
    one entry from one stack to the other. *)
Theorem stacks_sum_at_most_50 el has2d s :
  reachable raster toDataURL el has2d s ->
  length (undoStack s) + length (redoStack s) <= 50 /\
  (redoStack (saveState s) = [] /\
   length (undoStack (saveState s)) <= 50) /\
  (length (undoStack (stateOf (undo s))) +
   length (redoStack (stateOf (undo s))) =
   length (undoStack s) + length (redoStack s)) /\
  (length (undoStack (stateOf (redo s))) +
   length (redoStack (stateOf (redo s))) =
   length (undoStack s) + length (redoStack s)) /\
  (canUndo s = true ->
   S (length (undoStack (stateOf (undo s)))) = length (undoStack s) /\
   length (redoStack (stateOf (undo s))) = S (length (redoStack s))) /\
  (canRedo s = true ->
   length (undoStack (stateOf (redo s))) = S (length (undoStack s)) /\
   S (length (redoStack (stateOf (redo s)))) = length (redoStack s)).
Proof.
  intros Hs. pose proof (reachable_invariant Hs) as Hinv.
  pose proof Hinv as (Hbound & Hidle & _).
  unfold history_bounded in Hbound.
  split; [exact Hbound|]. split.
  { pose proof (saveState_invariant Hinv) as (Hb' & _).
    unfold history_bounded in Hb'. split; [|lia].
    destruct (ctx s && canvas s) eqn:Hcv.
    - apply andb_prop in Hcv. destruct Hcv as [Hc Hv].
      now rewrite saveState_acts.
    - rewrite saveState_guard by assumption. now apply Hidle. }
  assert (Hundo :
    undo s = Returned s /\ canUndo s = false \/
    S (length (undoStack (stateOf (undo s)))) = length (undoStack s) /\
    length (redoStack (stateOf (undo s))) = S (length (redoStack s))).
  { destruct (undo_cases s) as [[E G]|(l & a & b & Hc & Hv & Hu & E)].
    - left. split; [exact E|]. unfold canUndo. apply Nat.ltb_ge.
      destruct G as [G|G]; [|exact G].
      destruct (Hidle G) as [-> _]. simpl. lia.
    - right. rewrite E, Hu. simpl. rewrite !length_push. auto. }
  assert (Hredo :
    redo s = Returned s /\ canRedo s = false \/
    length (undoStack (stateOf (redo s))) = S (length (undoStack s)) /\
    S (length (redoStack (stateOf (redo s)))) = length (redoStack s)).
  { destruct (redo_cases s) as [[E G]|(r & x & Hc & Hv & Hr & E)].
    - left. split; [exact E|]. unfold canRedo. apply Nat.ltb_ge.
      destruct G as [G|G]; [|rewrite G; simpl; lia].
      destruct (Hidle G) as [_ ->]. simpl. lia.
    - right. rewrite E, Hr. simpl. rewrite !length_push. auto. }
  repeat split.
  - destruct Hundo as [[E _]|[H1 H2]]; [now rewrite E | lia].
  - destruct Hredo as [[E _]|[H1 H2]]; [now rewrite E | lia].
  - destruct Hundo as [[_ E]|[H1 H2]]; [congruence | exact H1].
  - destruct Hundo as [[_ E]|[H1 H2]]; [congruence | exact H2].
  - destruct Hredo as [[_ E]|[H1 H2]]; [congruence | exact H1].
  - destruct Hredo as [[_ E]|[H1 H2]]; [congruence | exact H2].
Qed.

End Bounds.

(* ------------------------------------------------------------------ *)
(** ** The undo stack keeps its first snapshot *)
(* ------------------------------------------------------------------ *)

Lemma saveState_nonempty s :
  1 <= length (undoStack s) -> 1 <= length (undoStack (saveState s)).
Proof.
  intros H. destruct (ctx s && canvas s) eqn:Hcv.
  - apply andb_prop in Hcv. destruct Hcv as [Hc Hv].
    rewrite saveState_acts by assumption. simpl.
    destruct (Nat.ltb_spec 50 (length (push (undoStack s) (bitmap s))))
      as [Hlt|Hge]; rewrite ?length_shift, length_push in *; lia.
  - now rewrite saveState_guard.
Qed.

Lemma undo_nonempty s :
  1 <= length (undoStack s) -> 1 <= length (undoStack (stateOf (undo s))).
Proof.
  intros H.
  destruct (undo_cases s) as [[E _]|(l & a & b & _ & _ & _ & E)];
    rewrite E; simpl; [exact H|].
  rewrite length_push. lia.
Qed.

Lemma redo_nonempty s :
  1 <= length (undoStack s) -> 1 <= length (undoStack (stateOf (redo s))).
Proof.
  intros H.
  destruct (redo_cases s) as [[E _]|(r & x & _ & _ & _ & E)];
    rewrite E; simpl; [exact H|].
  rewrite length_push. lia.
Qed.

Section Nonempty.

Variable raster : Rasteriser.
Variable toDataURL : ImageData -> string.

Lemma run_nonempty c s :
  1 <= length (undoStack s) ->
  1 <= length (undoStack (stateOf (run raster toDataURL c s))).
Proof.
  intros H. destruct c; simpl; try exact H.
  - now apply saveState_nonempty.
  - now apply undo_nonempty.
  - now apply redo_nonempty.
  - unfold handleKeyDown.
    destruct ((ctrlKey e || metaKey e) && (toLowerCase (key e) =? "z")%string).
    + destruct (shiftKey e); [now apply redo_nonempty | now apply undo_nonempty].
    + destruct ((ctrlKey e || metaKey e) && (toLowerCase (key e) =? "y")%string);
        [now apply redo_nonempty | exact H].
  - unfold draw. now destruct (negb (isDrawing s) || negb (ctx s)).
  - unfold handleTouchStart. now destruct (negb (canvas s)).
  - unfold handleTouchMove.
    now destruct (negb (isDrawing s) || negb (ctx s) || negb (canvas s)).
  - unfold stopDrawing. destruct (isDrawing s); [|exact H].
    exact (saveState_nonempty _ H).
  - unfold clearCanvas. destruct (negb (ctx s) || negb (canvas s)); [exact H|].
    now apply saveState_nonempty.
  - unfold exportImage. now destruct (negb (canvas s)).
Qed.

(** The state right after a mount that got its 2D context. *)
Lemma mounted_state w h :
  onMounted true (setup (Some (w, h))) =
  mkState true true (blank w h) false "#000000" Width5 [blank w h] [] 0 0.
Proof. reflexivity. Qed.

(** C5. Mounting on a canvas with a 2D context pushes the blank
    snapshot, and from then on the undo stack has at least one entry in
    every reachable state: no call, [undo] included, empties it. *)
Theorem undo_stack_never_empty w h s :
  reachable raster toDataURL (Some (w, h)) true s ->
  undoStack (onMounted true (setup (Some (w, h)))) = [blank w h] /\
  1 <= length (undoStack s).
Proof.
  intros Hs. split; [reflexivity|].
  induction Hs as [|s c _ IH].
  - rewrite mounted_state. simpl. lia.
  - now apply run_nonempty.
Qed.

(** C4. A committed action runs [saveState]: [stopDrawing] on a stroke
    in progress and [clearCanvas] (once its guard has passed) are
    [saveState] applied to the drawn, respectively cleared, canvas.  In
    every reachable state the redo stack is empty after [saveState],
    after such a [stopDrawing] and after [clearCanvas]; and whenever the
    context exists, [saveState] empties the redo stack whatever it
    held. *)
Theorem committed_action_empties_redo el has2d s :
  reachable raster toDataURL el has2d s ->
  (isDrawing s = true ->
   stopDrawing s = set_isDrawing false (saveState s)) /\
  (ctx s = true -> canvas s = true ->
   clearCanvas s = saveState (set_bitmap (clearRect (bitmap s)) s)) /\
  redoStack (saveState s) = [] /\
  (isDrawing s = true -> redoStack (stopDrawing s) = []) /\
  redoStack (clearCanvas s) = [] /\
  (forall s0, ctx s0 = true -> canvas s0 = true ->
              redoStack (saveState s0) = []).
Proof.
  intros Hs. pose proof (reachable_invariant Hs) as (_ & Hidle & _).
  assert (Hany : forall s0, ctx s0 = true -> canvas s0 = true ->
                            redoStack (saveState s0) = []).
  { intros s0 Hc Hv. now rewrite saveState_acts. }
  assert (Hsave : redoStack (saveState s) = []).
  { destruct (ctx s && canvas s) eqn:Hcv.
    - apply andb_prop in Hcv. destruct Hcv as [Hc Hv]. now apply Hany.
    - rewrite saveState_guard by assumption. now apply Hidle. }
  split; [|split; [|split; [|split; [|split]]]].
  - intros Hd. unfold stopDrawing. now rewrite Hd.
  - intros Hc Hv. unfold clearCanvas. now rewrite Hc, Hv.
  - exact Hsave.
  - intros Hd. unfold stopDrawing. rewrite Hd. exact Hsave.
  - unfold clearCanvas. destruct (ctx s) eqn:Hc, (canvas s) eqn:Hv; simpl;
      try (apply Hidle; rewrite Hc, Hv; reflexivity).
    now apply Hany.
  - exact Hany.
Qed.

End Nonempty.

(* ------------------------------------------------------------------ *)
(** ** Undo, redo and the displayed bitmap *)
(* ------------------------------------------------------------------ *)

(** C3. In a state whose undo stack has at least two entries (the bitmap
    being a well-formed RGBA array), [undo] followed by [redo] both return
    and leave the canvas with exactly the bytes it showed before the
    [undo]. *)
Theorem undo_then_redo_restores_bitmap s :
  well_formed (bitmap s) ->
  2 <= length (undoStack s) ->
  exists s1 s2,
    undo s = Returned s1 /\ redo s1 = Returned s2 /\ bitmap s2 = bitmap s.
Proof.
  intros Hwf Hlen.
  destruct (undo_cases s) as [[E G]|(l & a & b & Hc & Hv & Hu & E)].
  - destruct G as [G|G]; [|lia].
    exists s, s. repeat split; auto. apply redo_guard. now left.
  - eexists. eexists. split; [exact E|]. split.
    + apply redo_acts; simpl; auto.
    + simpl. apply putImageData_fits.
      * eapply well_formed_fits; [exact Hwf | apply fits_putImageData].
      * apply fits_sym, fits_putImageData.
Qed.

Section RedoSpec.

Variable raster : Rasteriser.
Variable toDataURL : ImageData -> string.

(** C6. [redo] returns without any change when the redo stack is empty.
    Otherwise, in every reachable state, it takes the last snapshot off
    the redo stack, pushes the bitmap that is on display onto the undo
    stack and puts the popped snapshot on display; nothing else
    changes. *)
Theorem redo_pops_and_displays el has2d s :
  reachable raster toDataURL el has2d s ->
  (redoStack s = [] -> redo s = Returned s) /\
  (forall r x,
     redoStack s = r ++ [x] ->
     redo s =
     Returned
       (mkState (canvas s) (ctx s) x (isDrawing s) (strokeColor s)
                (strokeWidth s) (undoStack s ++ [bitmap s]) r
                (lastX s) (lastY s))).
Proof.
  intros Hs. split.
  - intros Hr. apply redo_guard. now right.
  - intros r x Hr.
    pose proof (reachable_invariant Hs) as (_ & _ & Hwf & _ & Hfr).
    destruct (reachable_context Hs) as [Hc Hv].
    { rewrite Hr, length_app. simpl. lia. }
    rewrite (@redo_acts s r x Hc Hv Hr).
    rewrite putImageData_fits; [reflexivity | exact Hwf |].
    rewrite Hr in Hfr. apply Forall_app in Hfr. destruct Hfr as [_ Hx].
    now inversion Hx.
Qed.

(** C8. Every operation whose guard fails returns, without throwing, the
    state it was given: [saveState] and [clearCanvas] when the context
    or the canvas is missing, [undo] also when the undo stack has fewer
    than two entries, [redo] also when the redo stack is empty, and
    [exportImage] (which then offers no download) when the canvas is
    missing. *)
Theorem failed_guards_change_nothing iso s :
  (ctx s = false \/ canvas s = false -> saveState s = s) /\
  (ctx s = false \/ canvas s = false \/ length (undoStack s) < 2 ->
   undo s = Returned s) /\
  (ctx s = false \/ canvas s = false \/ redoStack s = [] ->
   redo s = Returned s) /\
  (ctx s = false \/ canvas s = false -> clearCanvas s = s) /\
  (canvas s = false -> exportImage toDataURL iso s = (s, None)).
Proof.
  assert (Hoff : ctx s = false \/ canvas s = false -> ctx s && canvas s = false).
  { intros [->| ->]; [reflexivity | apply andb_false_r]. }
  split; [|split; [|split; [|split]]].
  - intros H. apply saveState_guard. auto.
  - intros [H|[H|H]]; apply undo_guard; auto. right. lia.
  - intros [H|[H|H]]; apply redo_guard; auto.
  - intros H. unfold clearCanvas.
    destruct H as [->| ->]; [reflexivity | now rewrite orb_true_r].
  - intros H. unfold exportImage. now rewrite H.
Qed.

End RedoSpec.

(* ------------------------------------------------------------------ *)
(** ** Keyboard shortcuts *)
(* ------------------------------------------------------------------ *)

Lemma toLowerCase_empty k : toLowerCase k = ""%string -> k = ""%string.
Proof. destruct k; simpl; [reflexivity | discriminate]. Qed.

Lemma lowerAscii_z c : lowerAscii c = "z"%char -> c = "z"%char \/ c = "Z"%char.
Proof.
  destruct c as [[] [] [] [] [] [] [] []]; vm_compute; intros H;
    first [discriminate H | now left | now right].
Qed.

Lemma lowerAscii_y c : lowerAscii c = "y"%char -> c = "y"%char \/ c = "Y"%char.
Proof.
  destruct c as [[] [] [] [] [] [] [] []]; vm_compute; intros H;
    first [discriminate H | now left | now right].
Qed.

(** The keys whose lower case is ["z"] are ["z"] and ["Z"]. *)
Lemma toLowerCase_z k :
  (toLowerCase k =? "z")%string = true <-> k = "z"%string \/ k = "Z"%string.
Proof.
  rewrite String.eqb_eq. split.
  - destruct k as [|c rest]; simpl; [discriminate|].
    intros H. injection H as Hc Hrest.
    apply toLowerCase_empty in Hrest. subst rest.
    destruct (lowerAscii_z _ Hc) as [-> | ->]; auto.
  - intros [-> | ->]; reflexivity.
Qed.

Lemma toLowerCase_y k :
  (toLowerCase k =? "y")%string = true <-> k = "y"%string \/ k = "Y"%string.
Proof.
  rewrite String.eqb_eq. split.
  - destruct k as [|c rest]; simpl; [discriminate|].
    intros H. injection H as Hc Hrest.
    apply toLowerCase_empty in Hrest. subst rest.
    destruct (lowerAscii_y _ Hc) as [-> | ->]; auto.
  - intros [-> | ->]; reflexivity.
Qed.

(** C9. On a keydown with Ctrl or Cmd held: the Z key (reported as ["z"]
    or ["Z"]) runs [undo] when Shift is up and [redo] when Shift is down,
    the Y key (["y"] or ["Y"]) runs [redo]; every other keydown leaves the
    component as it is, running neither. *)
Theorem keyboard_shortcuts e s :
  let modifier := ctrlKey e || metaKey e in
  let keyZ := key e = "z"%string \/ key e = "Z"%string in
  let keyY := key e = "y"%string \/ key e = "Y"%string in
  (modifier = true -> keyZ -> shiftKey e = false ->
   handleKeyDown e s = undo s) /\
  (modifier = true -> keyZ -> shiftKey e = true ->
   handleKeyDown e s = redo s) /\
  (modifier = true -> keyY -> handleKeyDown e s = redo s) /\
  (~ (modifier = true /\ (keyZ \/ keyY)) -> handleKeyDown e s = Returned s).
Proof.
  intros modifier keyZ keyY. unfold handleKeyDown. fold modifier.
  split; [|split; [|split]].
  - intros Hm HZ Hs. apply toLowerCase_z in HZ. now rewrite Hm, HZ, Hs.
  - intros Hm HZ Hs. apply toLowerCase_z in HZ. now rewrite Hm, HZ, Hs.
  - intros Hm HY. rewrite Hm. simpl.
    destruct (toLowerCase (key e) =? "z")%string eqn:E.
    + apply toLowerCase_z in E.
      destruct HY as [HY|HY], E as [E|E]; rewrite E in HY; discriminate.
    + apply toLowerCase_y in HY. now rewrite HY.
  - intros Hno.
    destruct modifier eqn:Hm; simpl; [|reflexivity].
    destruct (toLowerCase (key e) =? "z")%string eqn:Ez.
    { exfalso. apply Hno. split; [reflexivity|]. left.
      now apply toLowerCase_z. }
    destruct (toLowerCase (key e) =? "y")%string eqn:Ey; [|reflexivity].
    exfalso. apply Hno. split; [reflexivity|]. right.
    now apply toLowerCase_y.
Qed.

(* ------------------------------------------------------------------ *)
(** ** The last snapshot of the undo stack and the canvas *)
(* ------------------------------------------------------------------ *)

#[local] Arguments blank : simpl never.
#[local] Arguments strokeLine : simpl never.
#[local] Arguments saveState : simpl never.
#[local] Arguments undo : simpl never.
#[local] Arguments redo : simpl never.

Lemma shift_push_last (u : list ImageData) b :
  1 < length (push u b) ->
  index (shift (push u b)) (Z.of_nat (length (shift (push u b))) - 1) = Some b.
Proof.
  intros H. rewrite length_push in H.
  destruct u as [|y u']; [simpl in H; lia|].
  change (shift (push (y :: u') b)) with (push u' b).
  apply index_last_push.
Qed.

(** [saveState] leaves the bitmap on top of the undo stack. *)
Lemma saveState_in_step s :
  ctx s = true -> canvas s = true -> invariant s -> in_step (saveState s).
Proof.
  intros Hc Hv Hinv. pose proof (saveState_invariant Hinv) as Hinv'.
  revert Hinv'. rewrite saveState_acts by assumption. intros Hinv'.
  split; [|split; [|split]]; auto.
  unfold undoTop. simpl.
  destruct (Nat.ltb_spec 50 (length (push (undoStack s) (bitmap s))))
    as [H|H].
  - apply shift_push_last. lia.
  - apply index_last_push.
Qed.

(** So does [undo]. *)
Lemma undo_in_step s : in_step s -> in_step (stateOf (undo s)).
Proof.
  intros (Hc & Hv & Hinv & Htop).
  pose proof (undo_invariant Hinv) as Hinv'. revert Hinv'.
  destruct (undo_cases s) as [[E _]|(l & a & b & _ & _ & Hu & E)];
    rewrite E; simpl stateOf; intros Hinv'.
  - unfold in_step. auto.
  - assert (Ha : putImageData a (bitmap s) = a).
    { destruct Hinv as (_ & _ & Hwf & Hfu & _). rewrite Hu in Hfu.
      apply Forall_push_inv in Hfu. destruct Hfu as [Hfu _].
      apply Forall_push_inv in Hfu. destruct Hfu as [_ Hfa].
      now apply putImageData_fits. }
    split; [|split; [|split]]; auto.
    unfold undoTop. simpl. rewrite Ha. apply index_last_push.
Qed.

Section StaleTop.

Variable raster : Rasteriser.
Variable toDataURL : ImageData -> string.

(** C2. One stroke, one [undo], one [redo]: the undo stack then holds
    the blank canvas twice while the canvas shows the stroke, so as soon
    as the stroke painted anything the last snapshot of the undo stack
    is not what is displayed.  ([saveState] and [undo] do leave the
    displayed bitmap on top: [saveState_in_step], [undo_in_step].) *)
Theorem redo_leaves_stale_undo_top w h down move :
  let mounted := onMounted true (setup (Some (w, h))) in
  let stroked :=
    strokeLine raster (pen mounted) (offsetX down, offsetY down)
               (offsetX move, offsetY move) (blank w h) in
  let s :=
    exec raster toDataURL
         [CallStartDrawing down; CallDraw move; CallStopDrawing;
          CallUndo; CallRedo] mounted in
  stroked <> blank w h ->
  undoStack s = [blank w h; blank w h] /\
  redoStack s = [] /\
  bitmap s = stroked /\
  undoTop s <> Some (bitmap s).
Proof.
  intros mounted stroked s Hpaint.
  assert (Hfit : fits (blank w h) stroked) by apply fits_strokeLine.
  assert (Hwf : well_formed stroked)
    by (eapply well_formed_fits; [apply well_formed_blank | exact Hfit]).
  pose (drawn := mkState true true stroked true "#000000" Width5
                         [blank w h] [] (offsetX move) (offsetY move)).
  pose (saved := mkState true true stroked false "#000000" Width5
                         [blank w h; stroked] [] (offsetX move) (offsetY move)).
  pose (undone := mkState true true (blank w h) false "#000000" Width5
                          [blank w h] [stroked] (offsetX move) (offsetY move)).
  pose (redone := mkState true true stroked false "#000000" Width5
                          [blank w h; blank w h] []
                          (offsetX move) (offsetY move)).
  assert (E1 : draw raster move (startDrawing down mounted) = drawn)
    by reflexivity.
  assert (E2 : stopDrawing drawn = saved).
  { unfold stopDrawing. cbn [isDrawing drawn].
    rewrite saveState_acts by reflexivity. reflexivity. }
  assert (E3 : undo saved = Returned undone).
  { rewrite (@undo_acts saved [] (blank w h) stroked) by reflexivity.
    cbn [saved canvas ctx bitmap isDrawing strokeColor strokeWidth redoStack
         lastX lastY].
    rewrite (putImageData_fits Hwf (fits_sym Hfit)). reflexivity. }
  assert (E4 : redo undone = Returned redone).
  { rewrite (@redo_acts undone [] stroked) by reflexivity.
    cbn [undone canvas ctx bitmap isDrawing strokeColor strokeWidth undoStack
         lastX lastY].
    rewrite (putImageData_fits (well_formed_blank w h) Hfit). reflexivity. }
  assert (Es : s = redone).
  { subst s. unfold exec. cbn [fold_left run stateOf].
    rewrite E1, E2, E3. cbn [stateOf]. rewrite E4. reflexivity. }
  rewrite Es. cbn [redone undoStack redoStack bitmap].
  split; [reflexivity|]. split; [reflexivity|]. split; [reflexivity|].
  unfold undoTop. cbn [redone undoStack bitmap]. intros H.
  apply Hpaint. symmetry.
  exact (f_equal (fun o => match o with Some x => x | None => stroked end) H).
Qed.

End StaleTop.

(** When nothing is painted between them, [saveState], [undo] and [redo]
    only ever see blank canvases: then all snapshots are equal and the
    last one trivially is what the canvas shows. *)
Lemma saveState_all_blank w h s : all_blank w h s -> all_blank w h (saveState s).
Proof.
  intros (Hb & Hu & Hr). destruct (ctx s && canvas s) eqn:Hcv.
  - apply andb_prop in Hcv. destruct Hcv as [Hc Hv].
    rewrite saveState_acts by assumption.
    assert (Hp : Forall (eq (blank w h)) (push (undoStack s) (bitmap s)))
      by (apply Forall_push; [exact Hu | now rewrite Hb]).
    split; [exact Hb|]. split; [|constructor]. simpl.
    destruct (50 <? length (push (undoStack s) (bitmap s)));
      [now apply Forall_shift | exact Hp].
  - rewrite saveState_guard by assumption. now repeat split.
Qed.

Lemma undo_all_blank w h s :
  all_blank w h s -> all_blank w h (stateOf (undo s)).
Proof.
  intros (Hb & Hu & Hr).
  destruct (undo_cases s) as [[E _]|(l & a & b & _ & _ & Hl & E)];
    rewrite E; simpl stateOf; [now repeat split|].
  rewrite Hl in Hu. apply Forall_push_inv in Hu. destruct Hu as [Hu _].
  pose proof Hu as Hla. apply Forall_push_inv in Hla. destruct Hla as [_ <-].
  split; [|split]; simpl.
  - rewrite Hb. apply putImageData_fits;
      [apply well_formed_blank | apply fits_refl].
  - exact Hu.
  - apply Forall_push; [exact Hr | now rewrite Hb].
Qed.

Lemma redo_all_blank w h s :
  all_blank w h s -> all_blank w h (stateOf (redo s)).
Proof.
  intros (Hb & Hu & Hr).
  destruct (redo_cases s) as [[E _]|(r & x & _ & _ & Hl & E)];
    rewrite E; simpl stateOf; [now repeat split|].
  rewrite Hl in Hr. apply Forall_push_inv in Hr. destruct Hr as [Hr <-].
  split; [|split]; simpl.
  - rewrite Hb. apply putImageData_fits;
      [apply well_formed_blank | apply fits_refl].
  - apply Forall_push; [exact Hu | now rewrite Hb].
  - exact Hr.
Qed.

Lemma history_only_stays_blank raster toDataURL w h cs : forall s,
  forallb historyCall cs = true -> all_blank w h s ->
  all_blank w h (exec raster toDataURL cs s).
Proof.
  induction cs as [|c cs IH]; intros s Hcs Hs; simpl in *; [exact Hs|].
  apply andb_prop in Hcs. destruct Hcs as [Hc Hcs].
  apply IH; [exact Hcs|].
  destruct c; try discriminate Hc; simpl.
  - now apply saveState_all_blank.
  - now apply undo_all_blank.
  - now apply redo_all_blank.
Qed.

(** Two strokes, everything undone and redone, then one [undo]: the
    canvas should show the first stroke again, but [redo] left blank
    canvases below the top of the undo stack, and the first stroke is in
    neither stack any more. *)
Example undo_after_redo_skips_a_stroke :
  let drawn := demoRun (demoStroke ++ demoStrokeBack) in
  let s := demoRun (demoStroke ++ demoStrokeBack ++
                    [CallUndo; CallUndo; CallRedo; CallRedo; CallUndo]) in
  undoStack drawn = [blank 2 1; demoInked; bitmap drawn] /\
  bitmap s = blank 2 1 /\
  undoStack s = [blank 2 1; blank 2 1] /\
  redoStack s = [bitmap drawn].
Proof. vm_compute. repeat split. Qed.

(* ------------------------------------------------------------------ *)
(** ** Strokes, then undo *)
(* ------------------------------------------------------------------ *)

Section Strokes.

Variable raster : Rasteriser.

Lemma keeps_history_refl s : keeps_history s s.
Proof. unfold keeps_history. auto 10. Qed.

Lemma keeps_history_trans s1 s2 s3 :
  keeps_history s1 s2 -> keeps_history s2 s3 -> keeps_history s1 s3.
Proof.
  unfold keeps_history.
  intros (A1 & A2 & A3 & A4 & A5 & A6) (B1 & B2 & B3 & B4 & B5 & B6).
  split; [|split; [|split; [|split; [|split]]]]; try congruence. auto.
Qed.

Lemma draw_keeps_history e s : keeps_history s (draw raster e s).
Proof.
  unfold keeps_history.
  split; [|split; [|split; [|split; [|split]]]];
    try apply draw_invariant;
    unfold draw; now destruct (negb (isDrawing s) || negb (ctx s)).
Qed.

Lemma handleTouchMove_keeps_history e s :
  keeps_history s (handleTouchMove raster e s).
Proof.
  unfold keeps_history.
  split; [|split; [|split; [|split; [|split]]]];
    try apply handleTouchMove_invariant;
    unfold handleTouchMove;
    now destruct (negb (isDrawing s) || negb (ctx s) || negb (canvas s)).
Qed.

Lemma draws_keep_history moves s :
  keeps_history s (fold_left (fun st e => draw raster e st) moves s).
Proof.
  revert s. induction moves as [|e moves IH]; intros s; simpl.
  - apply keeps_history_refl.
  - eapply keeps_history_trans; [apply draw_keeps_history | apply IH].
Qed.

Lemma touchMoves_keep_history moves s :
  keeps_history s
    (fold_left (fun st e => handleTouchMove raster e st) moves s).
Proof.
  revert s. induction moves as [|e moves IH]; intros s; simpl.
  - apply keeps_history_refl.
  - eapply keeps_history_trans;
      [apply handleTouchMove_keeps_history | apply IH].
Qed.

(** A stroke on a canvas with a context is [saveState] on the drawn
    canvas. *)
Lemma commitStroke_saves k s :
  ctx s = true -> canvas s = true -> invariant s ->
  exists d,
    commitStroke raster k s = set_isDrawing false (saveState d) /\
    ctx d = true /\ canvas d = true /\ invariant d /\
    undoStack d = undoStack s.
Proof.
  intros Hc Hv Hinv.
  assert (Hgen : forall s0 d,
            keeps_history s0 d -> isDrawing s0 = true ->
            ctx s0 = true -> canvas s0 = true -> invariant s0 ->
            undoStack s0 = undoStack s ->
            stopDrawing d = set_isDrawing false (saveState d) /\
            ctx d = true /\ canvas d = true /\ invariant d /\
            undoStack d = undoStack s).
  { intros s0 d (D1 & D2 & D3 & D4 & _ & D6) Hd Hc0 Hv0 Hinv0 Hu0.
    split; [unfold stopDrawing; now rewrite D3, Hd|].
    split; [congruence|]. split; [congruence|].
    split; [now apply D6 | congruence]. }
  destruct k as [down moves | start moves]; simpl.
  - eexists. eapply Hgen.
    + apply draws_keep_history.
    + reflexivity.
    + exact Hc.
    + exact Hv.
    + exact Hinv.
    + reflexivity.
  - assert (Estart : handleTouchStart start s =
                     set_isDrawing true
                       (set_last (clientX start - rectLeft start)
                                 (clientY start - rectTop start) s)).
    { unfold handleTouchStart. now rewrite Hv. }
    rewrite Estart. eexists. eapply Hgen.
    + apply touchMoves_keep_history.
    + reflexivity.
    + exact Hc.
    + exact Hv.
    + exact Hinv.
    + reflexivity.
Qed.

Lemma commitStroke_in_step k s :
  in_step s -> length (undoStack s) < 50 ->
  in_step (commitStroke raster k s) /\
  exists b, undoStack (commitStroke raster k s) = undoStack s ++ [b].
Proof.
  intros (Hc & Hv & Hinv & _) Hlen.
  destruct (commitStroke_saves k Hc Hv Hinv)
    as (d & E & Hcd & Hvd & Hinvd & Hud).
  rewrite E. split.
  - exact (saveState_in_step Hcd Hvd Hinvd).
  - exists (bitmap d). simpl. rewrite saveState_acts by assumption. simpl.
    rewrite length_push, Hud.
    destruct (Nat.ltb_spec 50 (S (length (undoStack s)))) as [H|_]; [lia|].
    reflexivity.
Qed.

Lemma commitStrokes_in_step ks s :
  in_step s -> length (undoStack s) + length ks <= 50 ->
  in_step (commitStrokes raster ks s) /\
  exists pushed,
    undoStack (commitStrokes raster ks s) = undoStack s ++ pushed /\
    length pushed = length ks.
Proof.
  revert s. induction ks as [|k ks IH]; intros s Hs Hlen; simpl in *.
  - split; [exact Hs|]. exists []. now rewrite app_nil_r.
  - destruct (commitStroke_in_step k Hs) as (Hs1 & b & Hb); [lia|].
    destruct (IH (commitStroke raster k s) Hs1) as (Hs2 & pushed & Hp & Hl).
    { rewrite Hb, length_app. simpl. lia. }
    split; [exact Hs2|]. exists (b :: pushed). split.
    + change (commitStrokes raster (k :: ks) s)
        with (commitStrokes raster ks (commitStroke raster k s)).
      rewrite Hp, Hb, <- app_assoc. reflexivity.
    + simpl. now rewrite Hl.
Qed.

(** Undoing as many times as there are snapshots above the first one
    brings the first one back on display. *)
Lemma undoTimes_bottom rest : forall s x,
  in_step s -> undoStack s = x :: rest ->
  bitmap (undoTimes (length rest) s) = x.
Proof.
  induction rest as [|b rest IH] using rev_ind; intros s x Hs Hu.
  - simpl. destruct Hs as (_ & _ & _ & Htop).
    unfold undoTop in Htop. rewrite Hu in Htop.
    change (Some x = Some (bitmap s)) in Htop. congruence.
  - rewrite length_app, Nat.add_comm. simpl.
    pose proof (undo_in_step Hs) as Hs'.
    assert (Hu' : undoStack (stateOf (undo s)) = x :: rest).
    { destruct Hs as (Hc & Hv & _ & _).
      destruct (undo_cases s) as [[_ G]|(l & a & b' & _ & _ & Hl & E)].
      - exfalso. destruct G as [G|G].
        + rewrite Hc, Hv in G. discriminate.
        + rewrite Hu in G. simpl in G. rewrite length_app in G.
          simpl in G. lia.
      - rewrite E. simpl. rewrite Hu in Hl.
        change (x :: rest ++ [b]) with ((x :: rest) ++ [b]) in Hl.
        unfold push in Hl. apply app_inj_tail in Hl.
        destruct Hl as [Hl _]. unfold push. now rewrite Hl. }
    exact (IH _ _ Hs' Hu').
Qed.

(** C7. From the freshly mounted component, committing [N <= 49]
    strokes leaves [N + 1] snapshots on the undo stack, and [N] calls of
    [undo] after that put the blank canvas back on display. *)
Theorem strokes_then_undos_give_blank w h ks :
  length ks <= 49 ->
  let mounted := onMounted true (setup (Some (w, h))) in
  let s := commitStrokes raster ks mounted in
  undoStack mounted = [blank w h] /\ redoStack mounted = [] /\
  length (undoStack s) = length ks + 1 /\
  bitmap (undoTimes (length ks) s) = blank w h.
Proof.
  intros HN mounted s.
  assert (Hm : in_step mounted).
  { split; [reflexivity|]. split; [reflexivity|].
    split; [apply (onMounted_invariant true (Some (w, h))) | reflexivity]. }
  destruct (commitStrokes_in_step ks Hm) as (Hs & pushed & Hp & Hl).
  { simpl. lia. }
  fold s in Hs, Hp. change (undoStack mounted) with [blank w h] in Hp.
  split; [reflexivity|]. split; [reflexivity|]. split.
  - rewrite Hp. simpl. lia.
  - rewrite <- Hl. apply undoTimes_bottom; [exact Hs | exact Hp].
Qed.

End Strokes.

(* ------------------------------------------------------------------ *)
(** ** The theorems at work on concrete traces *)
(* ------------------------------------------------------------------ *)

Lemma demoRun_reachable cs :
  reachable inkEndPoint noEncoder (Some (2, 1)) true (demoRun cs).
Proof. apply reachable_exec, reach_mounted. Qed.

(** One stroke and 48 more [saveState]s fill the undo stack to 50; the
    next [saveState] drops the blank first snapshot. *)
Lemma undo_stack_at_most_50_witness :
  let s := demoRun (demoStroke ++ repeat CallSaveState 48) in
  length (undoStack s) <= 50 /\
  undoStack (saveState s) = tl (undoStack s ++ [getImageData (bitmap s)]).
Proof.
  intros s.
  destruct (@undo_stack_at_most_50 inkEndPoint noEncoder (Some (2, 1)) true s
              (demoRun_reachable _)) as [H1 H2].
  split; [exact H1|]. apply H2. vm_compute. lia.
Defined.

(** Two strokes and one [undo]: both guards pass. *)
Lemma stacks_sum_at_most_50_witness :
  let s := demoRun (demoStroke ++ demoStrokeBack ++ [CallUndo]) in
  length (undoStack s) + length (redoStack s) <= 50 /\
  (S (length (undoStack (stateOf (undo s)))) = length (undoStack s) /\
   length (redoStack (stateOf (undo s))) = S (length (redoStack s))) /\
  (length (undoStack (stateOf (redo s))) = S (length (undoStack s)) /\
   S (length (redoStack (stateOf (redo s)))) = length (redoStack s)).
Proof.
  intros s.
  destruct (@stacks_sum_at_most_50 inkEndPoint noEncoder (Some (2, 1)) true s
              (demoRun_reachable _)) as (H1 & _ & _ & _ & H5 & H6).
  split; [exact H1|]. split; [apply H5 | apply H6]; reflexivity.
Defined.

(** A stroke and two [undo]s: the second [undo] finds one snapshot and
    leaves it. *)
Lemma undo_stack_never_empty_witness :
  let s := demoRun (demoStroke ++ [CallUndo; CallUndo]) in
  undoStack demoMounted = [blank 2 1] /\ 1 <= length (undoStack s).
Proof.
  intros s.
  exact (@undo_stack_never_empty inkEndPoint noEncoder 2 1 s
           (demoRun_reachable _)).
Defined.

(** A stroke, an [undo] (so the redo stack holds a snapshot), and a new
    stroke in progress. *)
Lemma committed_action_empties_redo_witness :
  let s := demoRun (demoStroke ++ [CallUndo; CallStartDrawing (mkMouse 0 0)]) in
  redoStack s = [demoInked] /\
  stopDrawing s = set_isDrawing false (saveState s) /\
  clearCanvas s = saveState (set_bitmap (clearRect (bitmap s)) s) /\
  redoStack (saveState s) = [] /\
  redoStack (stopDrawing s) = [] /\
  redoStack (clearCanvas s) = [].
Proof.
  intros s.
  destruct (@committed_action_empties_redo inkEndPoint noEncoder
              (Some (2, 1)) true s (demoRun_reachable _))
    as (H1 & H2 & H3 & H4 & H5 & _).
  split; [reflexivity|].
  split; [apply H1; reflexivity|].
  split; [apply H2; reflexivity|].
  split; [exact H3|].
  split; [apply H4; reflexivity | exact H5].
Defined.

(** After one stroke the undo stack holds two snapshots. *)
Lemma undo_then_redo_restores_bitmap_witness :
  let s := demoRun demoStroke in
  bitmap s = demoInked /\
  exists s1 s2,
    undo s = Returned s1 /\ redo s1 = Returned s2 /\ bitmap s2 = bitmap s.
Proof.
  intros s. split; [reflexivity|].
  apply (@undo_then_redo_restores_bitmap s).
  - reflexivity.
  - vm_compute. lia.
Defined.

(** [redo] on the fresh component, and [redo] after a stroke was undone. *)
Lemma redo_pops_and_displays_witness :
  redo demoMounted = Returned demoMounted /\
  redo (demoRun (demoStroke ++ [CallUndo])) =
  Returned
    (mkState true true demoInked false "#000000" Width5
             [blank 2 1; blank 2 1] [] 1 0).
Proof.
  split.
  - apply (proj1 (@redo_pops_and_displays inkEndPoint noEncoder (Some (2, 1))
                    true demoMounted (demoRun_reachable []))).
    reflexivity.
  - apply (proj2 (@redo_pops_and_displays inkEndPoint noEncoder (Some (2, 1))
                    true _ (demoRun_reachable (demoStroke ++ [CallUndo])))
                 [] demoInked).
    reflexivity.
Defined.

(** A component whose canvas ref stayed [null], and the fresh component
    with its single snapshot. *)
Lemma failed_guards_change_nothing_witness :
  let off := onMounted true (setup None) in
  saveState off = off /\
  undo off = Returned off /\
  undo demoMounted = Returned demoMounted /\
  redo demoMounted = Returned demoMounted /\
  clearCanvas off = off /\
  exportImage noEncoder "2024-01-02T03:04:05.678Z" off = (off, None).
Proof.
  intros off.
  destruct (@failed_guards_change_nothing noEncoder
              "2024-01-02T03:04:05.678Z" off) as (H1 & H2 & _ & H4 & H5).
  destruct (@failed_guards_change_nothing noEncoder
              "2024-01-02T03:04:05.678Z" demoMounted) as (_ & G2 & G3 & _).
  split; [apply H1; left; reflexivity|].
  split; [apply H2; left; reflexivity|].
  split; [apply G2; right; right; vm_compute; lia|].
  split; [apply G3; right; right; reflexivity|].
  split; [apply H4; left; reflexivity | apply H5; reflexivity].
Defined.

(** Ctrl+Z, Cmd+Shift+Z, Ctrl+Y and a plain [a], after a stroke. *)
Lemma keyboard_shortcuts_witness :
  let s := demoRun demoStroke in
  handleKeyDown (mkKey true false false "z") s = undo s /\
  handleKeyDown (mkKey false true true "Z") s = redo s /\
  handleKeyDown (mkKey true false false "y") s = redo s /\
  handleKeyDown (mkKey false false false "a") s = Returned s.
Proof.
  intros s.
  split; [|split; [|split]].
  - apply (proj1 (keyboard_shortcuts (mkKey true false false "z") s));
      [reflexivity | left; reflexivity | reflexivity].
  - apply (proj1 (proj2 (keyboard_shortcuts (mkKey false true true "Z") s)));
      [reflexivity | right; reflexivity | reflexivity].
  - apply (proj1 (proj2 (proj2
             (keyboard_shortcuts (mkKey true false false "y") s))));
      [reflexivity | left; reflexivity].
  - apply (proj2 (proj2 (proj2
             (keyboard_shortcuts (mkKey false false false "a") s)))).
    simpl. intros [H _]. discriminate H.
Defined.

(** On the small canvas: after stroke, [undo], [redo] the canvas shows
    the stroke and the undo stack ends in the blank canvas. *)
Lemma redo_leaves_stale_undo_top_witness :
  let s := demoRun (demoStroke ++ [CallUndo; CallRedo]) in
  bitmap s = demoInked /\
  undoStack s = [blank 2 1; blank 2 1] /\
  redoStack s = [] /\
  undoTop s <> Some (bitmap s).
Proof.
  intros s.
  destruct (@redo_leaves_stale_undo_top inkEndPoint noEncoder 2 1
              (mkMouse 0 0) (mkMouse 1 0)) as (H1 & H2 & H3 & H4).
  - vm_compute. discriminate.
  - split; [reflexivity|]. split; [exact H1|]. split; [exact H2 | exact H4].
Defined.

(** Two strokes, one with the mouse and one with a finger, then two
    [undo]s. *)
Lemma strokes_then_undos_give_blank_witness :
  let ks := [MouseStroke (mkMouse 0 0) [mkMouse 1 0];
             TouchStroke (mkTouch 7 9 7 9) [mkTouch 7 9 7 9]] in
  let s := commitStrokes inkEndPoint ks demoMounted in
  undoStack s = [blank 2 1; demoInked; mkImageData 2 1 (repeat 255%Z 8)] /\
  length (undoStack s) = 2 + 1 /\
  bitmap (undoTimes 2 s) = blank 2 1.
Proof.
  intros ks s.
  destruct (@strokes_then_undos_give_blank inkEndPoint 2 1 ks)
    as (_ & _ & H3 & H4).
  - simpl. lia.
  - split; [reflexivity|]. split; [exact H3 | exact H4].
Defined.

(* ------------------------------------------------------------------ *)
(** ** A component that never got its context *)
(* ------------------------------------------------------------------ *)

Section Inert.

Variable raster : Rasteriser.
Variable toDataURL : ImageData -> string.

Lemma run_without_context c s :
  ctx s = false ->
  ctx (stateOf (run raster toDataURL c s)) = false /\
  undoStack (stateOf (run raster toDataURL c s)) = undoStack s /\
  redoStack (stateOf (run raster toDataURL c s)) = redoStack s /\
  bitmap (stateOf (run raster toDataURL c s)) = bitmap s.
Proof.
  intros Hc.
  assert (Hoff : ctx s && canvas s = false) by now rewrite Hc.
  assert (Hundo : undo s = Returned s) by (apply undo_guard; now left).
  assert (Hredo : redo s = Returned s) by (apply redo_guard; now left).
  assert (Hsave : saveState s = s) by now apply saveState_guard.
  destruct c; simpl; rewrite ?Hsave, ?Hundo, ?Hredo; simpl; auto.
  - unfold handleKeyDown.
    destruct ((ctrlKey e || metaKey e) && (toLowerCase (key e) =? "z")%string).
    + destruct (shiftKey e); rewrite ?Hundo, ?Hredo; simpl; auto.
    + destruct ((ctrlKey e || metaKey e) && (toLowerCase (key e) =? "y")%string);
        rewrite ?Hredo; simpl; auto.
  - unfold draw. rewrite Hc. simpl. rewrite orb_true_r. auto.
  - unfold handleTouchStart. destruct (negb (canvas s)); simpl; auto.
  - unfold handleTouchMove. rewrite Hc. simpl. rewrite orb_true_r. simpl. auto.
  - unfold stopDrawing. destruct (isDrawing s); rewrite ?Hsave; simpl; auto.
  - unfold clearCanvas. rewrite Hc. simpl. auto.
  - unfold exportImage. destruct (negb (canvas s)); simpl; auto.
Qed.

(** X1. When the canvas ref is null or [getContext('2d')] gives nothing,
    the component stays as it was set up whatever is called: no context,
    both stacks empty, the bitmap untouched, and neither button enabled. *)
Theorem without_context_nothing_is_recorded el has2d s :
  el = None \/ has2d = false ->
  reachable raster toDataURL el has2d s ->
  ctx s = false /\ undoStack s = [] /\ redoStack s = [] /\
  bitmap s = bitmap (setup el) /\ canUndo s = false /\ canRedo s = false.
Proof.
  intros Hno Hs.
  assert (Hcore : ctx s = false /\ undoStack s = [] /\ redoStack s = [] /\
                  bitmap s = bitmap (setup el)).
  { induction Hs as [|s c _ IH].
    - destruct Hno as [-> | ->]; [now repeat split|].
      destruct el as [[w h]|]; now repeat split.
    - destruct IH as (Hc & Hu & Hr & Hb).
      destruct (@run_without_context c s Hc) as (Hc' & Hu' & Hr' & Hb').
      repeat split; congruence. }
  destruct Hcore as (Hc & Hu & Hr & Hb).
  repeat split; auto; unfold canUndo, canRedo; now rewrite ?Hu, ?Hr.
Qed.

End Inert.

(* ------------------------------------------------------------------ *)
(** ** Committing, clearing and going back *)
(* ------------------------------------------------------------------ *)

(** The stack [saveState] leaves always ends in the old top and the
    bitmap, also when the first snapshot was dropped. *)
Lemma saveState_stack d l a :
  ctx d = true -> canvas d = true -> undoStack d = push l a ->
  length (undoStack d) <= 50 ->
  exists l',
    undoStack (saveState d) = push (push l' a) (bitmap d) /\
    redoStack (saveState d) = [] /\ bitmap (saveState d) = bitmap d /\
    ctx (saveState d) = true /\ canvas (saveState d) = true.
Proof.
  intros Hc Hv Hu Hlen. rewrite saveState_acts by assumption. simpl.
  rewrite Hu in *. rewrite !length_push in *.
  destruct (Nat.ltb_spec 50 (S (S (length l)))) as [H|H].
  - destruct l as [|y l']; [simpl in H; lia|].
    exists l'. now repeat split.
  - exists l. now repeat split.
Qed.

Lemma top_is_push (u : list ImageData) a :
  index u (Z.of_nat (length u) - 1) = Some a -> exists l, u = push l a.
Proof.
  intros H. destruct u as [|y u']; [discriminate H|].
  destruct (nonempty_is_push (y :: u')) as (l & b & E); [simpl; lia|].
  rewrite E in *. rewrite index_last_push in H. injection H as ->.
  now exists l.
Qed.

(** [saveState] on a repainted canvas, then [undo]: the old picture is
    back and the repainted one waits on the redo stack. *)
Lemma saveState_then_undo s d :
  in_step s -> ctx d = true -> canvas d = true -> invariant d ->
  undoStack d = undoStack s ->
  exists s',
    undo (saveState d) = Returned s' /\
    bitmap s' = bitmap s /\ redoStack s' = [bitmap d] /\
    undoTop s' = Some (bitmap s).
Proof.
  intros (_ & _ & _ & Htop) Hc Hv Hinv Hu.
  unfold undoTop in Htop. rewrite <- Hu in Htop.
  destruct (@top_is_push (undoStack d) (bitmap s) Htop) as (l & El).
  destruct Hinv as (Hbound & _ & Hwf & Hfu & _).
  unfold history_bounded in Hbound.
  destruct (@saveState_stack d l (bitmap s) Hc Hv El) as (l' & E1 & E2 & E3 & E4 & E5);
    [lia|].
  assert (Hfit : fits (bitmap d) (bitmap s)).
  { rewrite El in Hfu. apply Forall_push_inv in Hfu. tauto. }
  rewrite (@undo_acts (saveState d) l' (bitmap s) (bitmap d) E4 E5 E1).
  eexists. split; [reflexivity|]. simpl. rewrite E2, E3.
  rewrite (putImageData_fits Hwf Hfit).
  repeat split. unfold undoTop. simpl. apply index_last_push.
Qed.

Section CommitAndBack.

Variable raster : Rasteriser.

(** X3. When the last snapshot is what the canvas shows, a stroke followed
    by [undo] shows the picture from before the stroke again, also when the
    stroke made the undo stack drop its first snapshot; the stroked
    picture is then the one entry of the redo stack. *)
Theorem stroke_then_undo_restores k s :
  in_step s ->
  exists s',
    undo (commitStroke raster k s) = Returned s' /\
    bitmap s' = bitmap s /\
    redoStack s' = [bitmap (commitStroke raster k s)] /\
    undoTop s' = Some (bitmap s).
Proof.
  intros Hs. pose proof Hs as (Hc & Hv & Hinv & _).
  destruct (@commitStroke_saves raster k s Hc Hv Hinv)
    as (d & E & Hcd & Hvd & Hinvd & Hud).
  destruct (@saveState_then_undo s d Hs Hcd Hvd Hinvd Hud)
    as (s' & E1 & E2 & E3 & E4).
  assert (Hsd : bitmap (saveState d) = bitmap d)
    by (rewrite saveState_acts by assumption; reflexivity).
  assert (Hundo : undo (commitStroke raster k s) =
                  Returned (set_isDrawing false s')).
  { rewrite E.
    destruct (undo_cases (saveState d)) as [[E0 _]|(l & a & b & A1 & A2 & A3 & A4)].
    - rewrite E0 in E1. injection E1 as <-.
      exfalso. rewrite saveState_acts in E3 by assumption. discriminate E3.
    - rewrite A4 in E1. injection E1 as <-.
      now rewrite (@undo_acts (set_isDrawing false (saveState d)) l a b A1 A2 A3). }
  exists (set_isDrawing false s'). rewrite Hundo, E. simpl.
  rewrite Hsd. now repeat split.
Qed.

End CommitAndBack.

(** X4. With a context, [clearCanvas] leaves every byte of the canvas 0,
    pushes that blank picture and empties the redo stack; when the last
    snapshot was what the canvas showed, one [undo] brings the cleared
    picture back. *)
Theorem clear_then_undo_restores s :
  in_step s ->
  bitmap (clearCanvas s) = blank (width (bitmap s)) (height (bitmap s)) /\
  undoTop (clearCanvas s) = Some (bitmap (clearCanvas s)) /\
  redoStack (clearCanvas s) = [] /\
  exists s',
    undo (clearCanvas s) = Returned s' /\ bitmap s' = bitmap s /\
    redoStack s' = [bitmap (clearCanvas s)].
Proof.
  intros Hs. pose proof Hs as (Hc & Hv & Hinv & _).
  pose (d := set_bitmap (clearRect (bitmap s)) s).
  assert (Hinvd : invariant d)
    by (apply repaint_invariant; [apply fits_clearRect | exact Hinv]).
  assert (Ecl : clearCanvas s = saveState d)
    by (unfold clearCanvas; now rewrite Hc, Hv).
  assert (Hbd : bitmap (saveState d) = clearRect (bitmap s))
    by (rewrite saveState_acts by assumption; reflexivity).
  destruct (@saveState_then_undo s d Hs Hc Hv Hinvd eq_refl)
    as (s' & E1 & E2 & E3 & _).
  destruct (@saveState_in_step d Hc Hv Hinvd) as (_ & _ & _ & Htop).
  rewrite Ecl, Hbd. split.
  - apply clearRect_blank. apply Hinv.
  - split; [now rewrite <- Hbd|]. split.
    + now rewrite saveState_acts.
    + exists s'. now repeat split.
Qed.

(** X5. Releasing the button and then leaving the canvas commits the
    stroke once: a second [stopDrawing] changes nothing, because the first
    one always leaves [isDrawing] false. *)
Theorem stopDrawing_twice s :
  isDrawing (stopDrawing s) = false /\
  stopDrawing (stopDrawing s) = stopDrawing s.
Proof.
  assert (H : isDrawing (stopDrawing s) = false).
  { unfold stopDrawing. destruct (isDrawing s) eqn:E; [reflexivity | exact E]. }
  split; [exact H|].
  unfold stopDrawing at 1. now rewrite H.
Qed.

(* ------------------------------------------------------------------ *)
(** ** The size of the canvas and of the snapshots *)
(* ------------------------------------------------------------------ *)

Lemma undo_keeps_size s : fits (bitmap s) (bitmap (stateOf (undo s))).
Proof.
  destruct (undo_cases s) as [[E _]|(l & a & b & _ & _ & _ & E)];
    rewrite E; simpl; [apply fits_refl | apply fits_putImageData].
Qed.

Lemma redo_keeps_size s : fits (bitmap s) (bitmap (stateOf (redo s))).
Proof.
  destruct (redo_cases s) as [[E _]|(r & x & _ & _ & _ & E)];
    rewrite E; simpl; [apply fits_refl | apply fits_putImageData].
Qed.

Lemma saveState_keeps_bitmap s : bitmap (saveState s) = bitmap s.
Proof.
  destruct (ctx s && canvas s) eqn:Hcv.
  - apply andb_prop in Hcv. destruct Hcv as [Hc Hv].
    now rewrite saveState_acts.
  - now rewrite saveState_guard.
Qed.

Section Size.

Variable raster : Rasteriser.
Variable toDataURL : ImageData -> string.

Lemma run_keeps_size c s :
  fits (bitmap s) (bitmap (stateOf (run raster toDataURL c s))).
Proof.
  destruct c; simpl; try apply fits_refl.
  - rewrite saveState_keeps_bitmap. apply fits_refl.
  - apply undo_keeps_size.
  - apply redo_keeps_size.
  - unfold handleKeyDown.
    destruct ((ctrlKey e || metaKey e) && (toLowerCase (key e) =? "z")%string).
    + destruct (shiftKey e); [apply redo_keeps_size | apply undo_keeps_size].
    + destruct ((ctrlKey e || metaKey e) && (toLowerCase (key e) =? "y")%string);
        [apply redo_keeps_size | apply fits_refl].
  - unfold draw. destruct (negb (isDrawing s) || negb (ctx s)); simpl;
      [apply fits_refl | apply fits_strokeLine].
  - unfold handleTouchStart. destruct (negb (canvas s)); apply fits_refl.
  - unfold handleTouchMove.
    destruct (negb (isDrawing s) || negb (ctx s) || negb (canvas s)); simpl;
      [apply fits_refl | apply fits_strokeLine].
  - unfold stopDrawing. destruct (isDrawing s); simpl;
      rewrite ?saveState_keeps_bitmap; apply fits_refl.
  - unfold clearCanvas. destruct (negb (ctx s) || negb (canvas s));
      rewrite ?saveState_keeps_bitmap; simpl;
      [apply fits_refl | apply fits_clearRect].
  - unfold exportImage. destruct (negb (canvas s)); apply fits_refl.
Qed.

(** X6. The canvas and every snapshot keep the size the canvas was
    mounted with: in every reachable state the bitmap and each entry of
    either stack is [w] by [h] with [4 * w * h] bytes, so that restoring a
    snapshot overwrites the whole picture. *)
Theorem snapshots_are_full_frames w h has2d s :
  reachable raster toDataURL (Some (w, h)) has2d s ->
  let full img :=
    width img = w /\ height img = h /\ length (data img) = 4 * (w * h) in
  full (bitmap s) /\ Forall full (undoStack s) /\ Forall full (redoStack s) /\
  (forall img, In img (undoStack s ++ redoStack s) ->
               putImageData img (bitmap s) = img).
Proof.
  intros Hs full.
  assert (Hb : fits (blank w h) (bitmap s)).
  { induction Hs as [|s c _ IH].
    - unfold onMounted. simpl. destruct has2d; simpl;
        rewrite ?saveState_keeps_bitmap; apply fits_refl.
    - eapply fits_rebase; [|apply run_keeps_size].
      apply fits_sym. exact IH. }
  pose proof (reachable_invariant Hs) as (_ & _ & Hwf & Hu & Hr).
  assert (Hfull : forall img, fits (bitmap s) img -> full img).
  { intros img Hi. pose proof (fits_rebase (fits_sym Hb) Hi) as (A & B & C).
    unfold full. rewrite A, B, C. simpl. rewrite repeat_length. auto. }
  split; [apply Hfull, fits_refl|].
  split; [eapply Forall_impl; [|exact Hu]; exact Hfull|].
  split; [eapply Forall_impl; [|exact Hr]; exact Hfull|].
  intros img Hin. apply putImageData_fits; [exact Hwf|].
  apply in_app_or in Hin. rewrite Forall_forall in Hu, Hr.
  destruct Hin; auto.
Qed.

End Size.

(* ------------------------------------------------------------------ *)
(** ** Strokes: touch and mouse, and the path that is drawn *)
(* ------------------------------------------------------------------ *)

Section Paths.

Variable raster : Rasteriser.

Lemma handleTouchMove_as_draw e s :
  canvas s = true ->
  handleTouchMove raster e s = draw raster (touchAsMouse e) s.
Proof.
  intros Hv. unfold handleTouchMove, draw. rewrite Hv. simpl.
  now rewrite orb_false_r.
Qed.

Lemma touchMoves_as_draws moves : forall s,
  canvas s = true ->
  fold_left (fun st e => handleTouchMove raster e st) moves s =
  fold_left (fun st e => draw raster e st) (map touchAsMouse moves) s.
Proof.
  induction moves as [|e moves IH]; intros s Hv; simpl; [reflexivity|].
  rewrite handleTouchMove_as_draw by assumption. apply IH.
  destruct (draw_keeps_history raster (touchAsMouse e) s) as (_ & -> & _).
  exact Hv.
Qed.

(** X7. On a mounted canvas a finger does what the mouse does: a touch
    stroke is the mouse stroke through the same points of the canvas,
    [clientX - rect.left] and [clientY - rect.top], and leaves the same
    state. *)
Theorem touch_stroke_is_mouse_stroke start moves s :
  canvas s = true ->
  handleTouchStart start s = startDrawing (touchAsMouse start) s /\
  commitStroke raster (TouchStroke start moves) s =
  commitStroke raster
    (MouseStroke (touchAsMouse start) (map touchAsMouse moves)) s.
Proof.
  intros Hv.
  assert (E : handleTouchStart start s = startDrawing (touchAsMouse start) s).
  { unfold handleTouchStart, startDrawing. now rewrite Hv. }
  split; [exact E|].
  simpl. rewrite E. now rewrite touchMoves_as_draws.
Qed.

Lemma draws_stroke_path moves : forall s,
  isDrawing s = true -> ctx s = true ->
  bitmap (fold_left (fun st e => draw raster e st) moves s) =
  strokePath raster (pen s) (lastX s, lastY s) (map mousePoint moves)
             (bitmap s).
Proof.
  induction moves as [|e moves IH]; intros s Hd Hc; simpl; [reflexivity|].
  assert (E : draw raster e s =
              set_last (offsetX e) (offsetY e)
                (set_bitmap (strokeLine raster (pen s) (lastX s, lastY s)
                               (offsetX e, offsetY e) (bitmap s)) s)).
  { unfold draw. now rewrite Hd, Hc. }
  rewrite E. now rewrite IH.
Qed.

(** X8. With a context, a mouse stroke draws the open polyline through
    its samples: one line from the point of the press to the first move,
    one from each move to the next, all with the pen of the moment the
    button went down; nothing else is painted before the stroke is
    saved. *)
Theorem stroke_draws_polyline down moves s :
  ctx s = true ->
  bitmap (commitStroke raster (MouseStroke down moves) s) =
  strokePath raster (pen s) (mousePoint down) (map mousePoint moves)
             (bitmap s).
Proof.
  intros Hc. simpl. unfold stopDrawing.
  destruct (isDrawing _); simpl; rewrite ?saveState_keeps_bitmap;
    now rewrite draws_stroke_path.
Qed.

(** X16. A new action throws the redo history away: right after a
    committed stroke, and right after [clearCanvas], [redo] returns
    without changing anything, in whatever state the action started. *)
Theorem redo_after_action_does_nothing k s :
  redo (commitStroke raster k s) = Returned (commitStroke raster k s) /\
  redo (clearCanvas s) = Returned (clearCanvas s).
Proof.
  assert (Hsave : forall d,
            redo (saveState d) = Returned (saveState d) /\
            redo (set_isDrawing false (saveState d)) =
            Returned (set_isDrawing false (saveState d))).
  { intros d. destruct (ctx d && canvas d) eqn:Hcv.
    - apply andb_prop in Hcv. destruct Hcv as [Hc Hv].
      split; apply redo_guard; right; simpl; now rewrite saveState_acts.
    - rewrite saveState_guard by assumption.
      split; apply redo_guard; now left. }
  split.
  - destruct (ctx s && canvas s) eqn:Hcv.
    + destruct k as [down moves | start moves]; simpl.
      * destruct (draws_keep_history raster moves (startDrawing down s))
          as (_ & _ & D3 & _).
        unfold stopDrawing. rewrite D3. simpl. apply Hsave.
      * apply andb_prop in Hcv. destruct Hcv as [_ Hv].
        unfold handleTouchStart. rewrite Hv. simpl.
        destruct (touchMoves_keep_history raster moves
                    (set_isDrawing true
                       (set_last (clientX start - rectLeft start)
                                 (clientY start - rectTop start) s)))
          as (_ & _ & D3 & _).
        unfold stopDrawing. rewrite D3. simpl. apply Hsave.
    + apply redo_guard. left.
      assert (Hkeep : forall d d', keeps_history d d' ->
                ctx (stopDrawing d') && canvas (stopDrawing d') =
                ctx d && canvas d).
      { intros d d' (D1 & D2 & _). unfold stopDrawing.
        destruct (isDrawing d'); simpl.
        - destruct (ctx d' && canvas d') eqn:E.
          + apply andb_prop in E. destruct E as [Ec Ev].
            rewrite saveState_acts by assumption. simpl. congruence.
          + rewrite saveState_guard by assumption. congruence.
        - congruence. }
      destruct k as [down moves | start moves]; simpl.
      * rewrite (Hkeep (startDrawing down s)); [exact Hcv|].
        apply draws_keep_history.
      * rewrite (Hkeep (handleTouchStart start s)).
        -- unfold handleTouchStart. now destruct (negb (canvas s)).
        -- apply touchMoves_keep_history.
  - unfold clearCanvas. destruct (ctx s) eqn:Hc, (canvas s) eqn:Hv; simpl;
      try (apply redo_guard; left; now rewrite Hc, Hv).
    apply Hsave.
Qed.

End Paths.

(* ------------------------------------------------------------------ *)
(** ** [undo] and [redo] composed *)
(* ------------------------------------------------------------------ *)

(** X9. When the last snapshot is what the canvas shows and there is
    something to redo, [redo] followed by [undo] gives back the very state
    it started from: canvas, both stacks and everything else. *)
Theorem redo_then_undo_is_identity s :
  in_step s -> redoStack s <> [] ->
  exists s1, redo s = Returned s1 /\ undo s1 = Returned s.
Proof.
  intros (Hc & Hv & Hinv & Htop) Hne.
  destruct (redoStack s) as [|y r'] eqn:Hr; [congruence|].
  destruct (nonempty_is_push (y :: r')) as (r & x & Er); [simpl; lia|].
  rewrite Er in Hr. clear Hne Er y r'.
  unfold undoTop in Htop.
  destruct (@top_is_push (undoStack s) (bitmap s) Htop) as (l & El).
  destruct Hinv as (_ & _ & Hwf & _ & Hfr).
  assert (Hx : fits (bitmap s) x).
  { rewrite Hr in Hfr. apply Forall_push_inv in Hfr. tauto. }
  eexists. split; [apply (@redo_acts s r x Hc Hv Hr)|].
  rewrite (@undo_acts _ l (bitmap s) (bitmap s));
    [|exact Hc | exact Hv | simpl; now rewrite El].
  simpl. rewrite (putImageData_fits Hwf Hx).
  rewrite putImageData_fits.
  - destruct s; simpl in *. now subst.
  - eapply well_formed_fits; eauto.
  - now apply fits_sym.
Qed.

(** X10. The other way round the undo stack does not come back: with a
    context and at least two snapshots [l ++ [a; b]], [undo] followed by
    [redo] restores the canvas and the redo stack, but the undo stack is
    then [l ++ [a; a]]: its last snapshot [b] is replaced by a copy of the
    one below it. *)
Theorem undo_then_redo_copies_snapshot s l a b :
  ctx s = true -> canvas s = true -> invariant s ->
  undoStack s = l ++ [a; b] ->
  exists s1,
    undo s = Returned s1 /\
    redo s1 = Returned (set_undoStack (l ++ [a; a]) s).
Proof.
  intros Hc Hv (_ & _ & Hwf & Hfu & _) Hu.
  assert (Hu' : undoStack s = push (push l a) b).
  { rewrite Hu. unfold push. now rewrite <- app_assoc. }
  assert (Ha : fits (bitmap s) a).
  { rewrite Hu' in Hfu. apply Forall_push_inv in Hfu. destruct Hfu as [Hfu _].
    apply Forall_push_inv in Hfu. tauto. }
  eexists. split; [apply (@undo_acts s l a b Hc Hv Hu')|].
  rewrite (@redo_acts _ (redoStack s) (bitmap s)); [|exact Hc|exact Hv|reflexivity].
  simpl. rewrite (putImageData_fits Hwf Ha).
  rewrite putImageData_fits; [|eapply well_formed_fits; eauto|now apply fits_sym].
  unfold set_undoStack, push. now rewrite <- app_assoc.
Qed.

(* ------------------------------------------------------------------ *)
(** ** The buttons *)
(* ------------------------------------------------------------------ *)

Section Buttons.

Variable raster : Rasteriser.
Variable toDataURL : ImageData -> string.

(** X13. The two buttons are enabled exactly when their operation does
    something: in every reachable state [undo] changes the state if and
    only if [canUndo] holds, and [redo] if and only if [canRedo] does. *)
Theorem buttons_enabled_iff_effective el has2d s :
  reachable raster toDataURL el has2d s ->
  (canUndo s = true <-> stateOf (undo s) <> s) /\
  (canRedo s = true <-> stateOf (redo s) <> s).
Proof.
  intros Hs. pose proof (reachable_invariant Hs) as (_ & Hidle & _).
  split.
  - destruct (undo_cases s) as [[E G]|(l & a & b & Hc & Hv & Hu & E)].
    + assert (Hno : canUndo s = false).
      { unfold canUndo. apply Nat.ltb_ge. destruct G as [G|G]; [|exact G].
        destruct (Hidle G) as [-> _]. simpl. lia. }
      rewrite E, Hno. simpl. split; [discriminate | congruence].
    + split; [|intros _; unfold canUndo; rewrite Hu, !length_push;
                apply Nat.ltb_lt; lia].
      intros _ Heq. rewrite E in Heq. simpl in Heq.
      apply (f_equal (fun st => length (undoStack st))) in Heq.
      simpl in Heq. rewrite Hu, !length_push in Heq. lia.
  - destruct (redo_cases s) as [[E G]|(r & x & Hc & Hv & Hr & E)].
    + assert (Hno : canRedo s = false).
      { unfold canRedo. apply Nat.ltb_ge.
        destruct G as [G|G]; [|rewrite G; simpl; lia].
        destruct (Hidle G) as [_ ->]. simpl. lia. }
      rewrite E, Hno. simpl. split; [discriminate | congruence].
    + split; [|intros _; unfold canRedo; rewrite Hr, length_push;
                apply Nat.ltb_lt; lia].
      intros _ Heq. rewrite E in Heq. simpl in Heq.
      apply (f_equal (fun st => length (redoStack st))) in Heq.
      simpl in Heq. rewrite Hr, length_push in Heq. lia.
Qed.

Lemma passive_run_keeps_stacks c s :
  passiveCall c = true ->
  undoStack (stateOf (run raster toDataURL c s)) = undoStack s /\
  redoStack (stateOf (run raster toDataURL c s)) = redoStack s.
Proof.
  intros Hp. destruct c; try discriminate Hp; simpl; auto.
  - unfold draw. now destruct (negb (isDrawing s) || negb (ctx s)).
  - unfold handleTouchStart. now destruct (negb (canvas s)).
  - unfold handleTouchMove.
    now destruct (negb (isDrawing s) || negb (ctx s) || negb (canvas s)).
  - unfold exportImage. now destruct (negb (canvas s)).
Qed.

(** X17. However the pointer is pressed and moved, whichever colour or
    width is picked and however often the picture is exported, neither
    stack changes: only [saveState] (through mount, the end of a stroke
    or a clear), [undo] and [redo] write to the history. *)
Theorem passive_calls_keep_history cs : forall s,
  forallb passiveCall cs = true ->
  undoStack (exec raster toDataURL cs s) = undoStack s /\
  redoStack (exec raster toDataURL cs s) = redoStack s.
Proof.
  induction cs as [|c cs IH]; intros s Hcs; simpl in *; [auto|].
  apply andb_prop in Hcs. destruct Hcs as [Hc Hcs].
  destruct (passive_run_keeps_stacks c s Hc) as [Hu Hr].
  destruct (IH (stateOf (run raster toDataURL c s)) Hcs) as [Hu' Hr'].
  unfold exec in *. split; congruence.
Qed.

End Buttons.

(* ------------------------------------------------------------------ *)
(** ** The undo stack is a window on the last 50 pictures *)
(* ------------------------------------------------------------------ *)

Lemma lastN_all {A : Type} n (l : list A) : length l <= n -> lastN n l = l.
Proof.
  intros H. unfold lastN. replace (length l - n) with 0 by lia. reflexivity.
Qed.

Lemma length_lastN {A : Type} n (l : list A) :
  length (lastN n l) = Nat.min (length l) n.
Proof. unfold lastN. rewrite length_skipn. lia. Qed.

Lemma lastN_app_lastN {A : Type} n (l m : list A) :
  lastN n (lastN n l ++ m) = lastN n (l ++ m).
Proof.
  destruct (Nat.le_gt_cases (length l) n) as [Hle|Hgt].
  - now rewrite (lastN_all l Hle).
  - unfold lastN at 1 3. rewrite !length_app, length_lastN.
    replace (Nat.min (length l) n + length m - n) with (length m) by lia.
    unfold lastN.
    replace (length l + length m - n) with (length m + (length l - n)) by lia.
    rewrite <- skipn_skipn. f_equal.
    rewrite skipn_app.
    replace (length l - n - length l) with 0 by lia. reflexivity.
Qed.

Lemma lastN_push_51 (u : list ImageData) b :
  length u <= 50 ->
  (if 50 <? length (push u b) then shift (push u b) else push u b) =
  lastN 50 (u ++ [b]).
Proof.
  intros H. rewrite length_push.
  destruct (Nat.ltb_spec 50 (S (length u))) as [Hlt|Hge].
  - unfold lastN, push. rewrite length_app. simpl.
    replace (length u + 1 - 50) with 1 by lia.
    destruct u; [simpl in *; lia | reflexivity].
  - unfold push. rewrite lastN_all; [reflexivity|].
    rewrite length_app. simpl. lia.
Qed.

Section Window.

Variable raster : Rasteriser.

Lemma commitStroke_window k s :
  in_step s ->
  in_step (commitStroke raster k s) /\
  undoStack (commitStroke raster k s) =
  lastN 50 (undoStack s ++ [bitmap (commitStroke raster k s)]).
Proof.
  intros (Hc & Hv & Hinv & _).
  destruct (@commitStroke_saves raster k s Hc Hv Hinv)
    as (d & E & Hcd & Hvd & Hinvd & Hud).
  rewrite E. split.
  - exact (saveState_in_step Hcd Hvd Hinvd).
  - simpl. rewrite saveState_keeps_bitmap.
    rewrite saveState_acts by assumption. simpl. rewrite Hud.
    apply lastN_push_51.
    destruct Hinv as (Hb & _). unfold history_bounded in Hb. lia.
Qed.

Lemma commitStrokes_window ks : forall s,
  in_step s ->
  in_step (commitStrokes raster ks s) /\
  undoStack (commitStrokes raster ks s) =
  lastN 50 (undoStack s ++ bitmapsAfter raster ks s).
Proof.
  induction ks as [|k ks IH]; intros s Hs.
  - simpl. split; [exact Hs|]. rewrite app_nil_r. symmetry.
    apply lastN_all.
    destruct Hs as (_ & _ & (Hb & _) & _). unfold history_bounded in Hb. lia.
  - destruct (commitStroke_window k Hs) as [Hs1 E1].
    destruct (IH _ Hs1) as [Hs2 E2].
    change (commitStrokes raster (k :: ks) s)
      with (commitStrokes raster ks (commitStroke raster k s)).
    split; [exact Hs2|].
    rewrite E2, E1, lastN_app_lastN. simpl. now rewrite <- app_assoc.
Qed.

(** X11. After any number of strokes on the freshly mounted canvas the
    undo stack is the last 50 of the pictures shown so far, oldest first:
    the blank canvas followed by the picture after each stroke.  So it
    holds [min (N + 1) 50] snapshots after [N] strokes, and from the 50th
    stroke on the blank canvas is gone. *)
Theorem undo_stack_is_last_50 w h ks :
  let mounted := onMounted true (setup (Some (w, h))) in
  let s := commitStrokes raster ks mounted in
  undoStack s = lastN 50 (blank w h :: bitmapsAfter raster ks mounted) /\
  length (undoStack s) = Nat.min (length ks + 1) 50.
Proof.
  intros mounted s.
  assert (Hm : in_step mounted).
  { split; [reflexivity|]. split; [reflexivity|].
    split; [apply (onMounted_invariant true (Some (w, h))) | reflexivity]. }
  destruct (commitStrokes_window ks Hm) as [_ E]. fold s in E.
  change (undoStack mounted) with [blank w h] in E.
  split; [exact E|].
  rewrite E, length_lastN. simpl.
  assert (Hlen : forall l st, length (bitmapsAfter raster l st) = length l).
  { induction l as [|k l IH]; intros st; simpl; [reflexivity|].
    now rewrite IH. }
  rewrite Hlen. lia.
Qed.

End Window.

(** [undo] on a stack of one snapshot does nothing, however often. *)
Lemma undoTimes_single n : forall s,
  length (undoStack s) <= 1 -> undoTimes n s = s.
Proof.
  induction n as [|n IH]; intros s H; simpl; [reflexivity|].
  rewrite undo_guard by now right. simpl. now apply IH.
Qed.

Lemma undoTimes_add m n s :
  undoTimes (m + n) s = undoTimes n (undoTimes m s).
Proof.
  revert s. induction m as [|m IH]; intros s; simpl; [reflexivity|].
  apply IH.
Qed.

Lemma undoTimes_to_first rest : forall s x,
  in_step s -> undoStack s = x :: rest ->
  bitmap (undoTimes (length rest) s) = x /\
  undoStack (undoTimes (length rest) s) = [x].
Proof.
  induction rest as [|b rest IH] using rev_ind; intros s x Hs Hu.
  - simpl. split; [|exact Hu]. destruct Hs as (_ & _ & _ & Htop).
    unfold undoTop in Htop. rewrite Hu in Htop.
    change (Some x = Some (bitmap s)) in Htop. congruence.
  - rewrite length_app, Nat.add_comm. simpl.
    pose proof (undo_in_step Hs) as Hs'.
    assert (Hu' : undoStack (stateOf (undo s)) = x :: rest).
    { destruct Hs as (Hc & Hv & _ & _).
      destruct (undo_cases s) as [[_ G]|(l & a & b' & _ & _ & Hl & E)].
      - exfalso. destruct G as [G|G].
        + rewrite Hc, Hv in G. discriminate.
        + rewrite Hu in G. simpl in G. rewrite length_app in G.
          simpl in G. lia.
      - rewrite E. simpl. rewrite Hu in Hl.
        change (x :: rest ++ [b]) with ((x :: rest) ++ [b]) in Hl.
        unfold push in Hl. apply app_inj_tail in Hl.
        destruct Hl as [Hl _]. unfold push. now rewrite Hl. }
    exact (IH _ _ Hs' Hu').
Qed.

(** X12. [undo] stops at the oldest snapshot that is still kept: when the
    last snapshot is what the canvas shows and the undo stack is
    [x :: rest], any number of [undo]s from [length rest] on leaves the
    canvas showing [x], with [x] alone on the undo stack. *)
Theorem undo_stops_at_oldest s x rest n :
  in_step s -> undoStack s = x :: rest -> length rest <= n ->
  bitmap (undoTimes n s) = x /\ undoStack (undoTimes n s) = [x].
Proof.
  intros Hs Hu Hn.
  destruct (undoTimes_to_first Hs Hu) as [Hb Hx].
  replace n with (length rest + (n - length rest)) by lia.
  rewrite undoTimes_add, undoTimes_single; [now split|].
  rewrite Hx. simpl. lia.
Qed.

(* ------------------------------------------------------------------ *)
(** ** The name of the exported file *)
(* ------------------------------------------------------------------ *)

Lemma stripColonDash_kept s :
  forallb keptChar (list_ascii_of_string (stripColonDash s)) = true.
Proof.
  induction s as [|c s IH]; simpl; [reflexivity|].
  destruct (Ascii.eqb c ":" || Ascii.eqb c "-")%char eqn:E; [exact IH|].
  simpl. unfold keptChar at 1. now rewrite E, IH.
Qed.

Lemma stripColonDash_length s :
  String.length (stripColonDash s) <= String.length s.
Proof.
  induction s as [|c s IH]; simpl; [lia|].
  destruct (Ascii.eqb c ":" || Ascii.eqb c "-")%char; simpl; lia.
Qed.

Lemma substring_0_length n s : String.length (substring 0 n s) <= n.
Proof.
  revert s. induction n as [|n IH]; intros s.
  - destruct s; simpl; lia.
  - destruct s as [|c s]; simpl; [lia|]. specialize (IH s). lia.
Qed.

(** X15. Whatever string the clock gives, the exported file is called
    [drawing-], a stamp and [.png], where the stamp has at most 19
    characters and none of them is a colon or a dash. *)
Theorem fileName_has_no_separators iso :
  exists stamp,
    fileName iso = ("drawing-" ++ stamp ++ ".png")%string /\
    String.length stamp <= 19 /\
    forallb keptChar (list_ascii_of_string stamp) = true.
Proof.
  exists (stripColonDash (substring 0 19 iso)). split; [reflexivity|]. split.
  - etransitivity; [apply stripColonDash_length | apply substring_0_length].
  - apply stripColonDash_kept.
Qed.

Lemma stripColonDash_keep c s :
  keptChar c = true ->
  stripColonDash (String c s) = String c (stripColonDash s).
Proof.
  unfold keptChar. intros H. apply negb_true_iff in H. simpl. now rewrite H.
Qed.

Lemma stripColonDash_colon s :
  stripColonDash (String ":" s) = stripColonDash s.
Proof. reflexivity. Qed.

Lemma stripColonDash_dash s :
  stripColonDash (String "-" s) = stripColonDash s.
Proof. reflexivity. Qed.

Lemma substring_0_0 s : substring 0 0 s = EmptyString.
Proof. now destruct s. Qed.

Lemma substring_0_S n c s :
  substring 0 (S n) (String c s) = String c (substring 0 n s).
Proof. reflexivity. Qed.

(** X14. For an ISO time [YYYY-MM-DDTHH:mm:ss.sssZ] (none of the fourteen
    field characters being a colon or a dash, as with digits) the file is
    called [drawing-YYYYMMDDTHHmmss.png]: the date and time to the second,
    the fraction and the [Z] cut off. *)
Theorem fileName_of_iso_time y1 y2 y3 y4 mo1 mo2 d1 d2 h1 h2 mi1 mi2 s1 s2 tail :
  forallb keptChar [y1; y2; y3; y4; mo1; mo2; d1; d2; h1; h2; mi1; mi2; s1; s2]
  = true ->
  fileName (isoString y1 y2 y3 y4 mo1 mo2 d1 d2 h1 h2 mi1 mi2 s1 s2 tail) =
  ("drawing-" ++
   compactStamp y1 y2 y3 y4 mo1 mo2 d1 d2 h1 h2 mi1 mi2 s1 s2 ++
   ".png")%string.
Proof.
  intros H. cbn [forallb] in H.
  repeat match type of H with
         | _ && _ = true => apply andb_prop in H; destruct H as [? H]
         end.
  unfold fileName. do 2 f_equal.
  unfold isoString, compactStamp.
  change 19 with (S (S (S (S (S (S (S (S (S (S (S (S (S (S (S (S (S (S (S 0))))))))))))))))))).
  rewrite !substring_0_S, substring_0_0.
  repeat first
    [ rewrite stripColonDash_keep by (assumption || reflexivity)
    | rewrite stripColonDash_colon
    | rewrite stripColonDash_dash ].
  reflexivity.
Qed.

(* ------------------------------------------------------------------ *)
(** ** No exception *)
(* ------------------------------------------------------------------ *)


(* ------------------------------------------------------------------ *)
(** ** These theorems on concrete traces *)
(* ------------------------------------------------------------------ *)

Ltac demo_in_step :=
  split; [vm_compute; reflexivity|];
  split; [vm_compute; reflexivity|];
  split; [exact (reachable_invariant (demoRun_reachable _))
         | vm_compute; reflexivity].

(** Mounted on a canvas whose [getContext] gave nothing, then a stroke, a
    clear and Ctrl+Z. *)
Lemma without_context_nothing_is_recorded_witness :
  let s := exec inkEndPoint noEncoder
             (demoStroke ++
              [CallClearCanvas; CallHandleKeyDown (mkKey true false false "z")])
             (onMounted false (setup (Some (2, 1)))) in
  ctx s = false /\ undoStack s = [] /\ redoStack s = [] /\
  bitmap s = bitmap (setup (Some (2, 1))) /\
  canUndo s = false /\ canRedo s = false.
Proof.
  intros s.
  apply (@without_context_nothing_is_recorded inkEndPoint noEncoder
           (Some (2, 1)) false s).
  - right. reflexivity.
  - apply reachable_exec, reach_mounted.
Defined.

Lemma stroke_then_undo_restores_witness :
  let s := demoRun demoStroke in
  let k := MouseStroke (mkMouse 1 0) [mkMouse 0 0] in
  bitmap s = demoInked /\
  exists s',
    undo (commitStroke inkEndPoint k s) = Returned s' /\
    bitmap s' = bitmap s /\
    redoStack s' = [bitmap (commitStroke inkEndPoint k s)] /\
    undoTop s' = Some (bitmap s).
Proof.
  intros s k. split; [vm_compute; reflexivity|].
  apply (@stroke_then_undo_restores inkEndPoint k s). demo_in_step.
Defined.

Lemma clear_then_undo_restores_witness :
  let s := demoRun demoStroke in
  bitmap (clearCanvas s) = blank (width (bitmap s)) (height (bitmap s)) /\
  undoTop (clearCanvas s) = Some (bitmap (clearCanvas s)) /\
  redoStack (clearCanvas s) = [] /\
  exists s',
    undo (clearCanvas s) = Returned s' /\ bitmap s' = bitmap s /\
    redoStack s' = [bitmap (clearCanvas s)].
Proof.
  intros s. apply (@clear_then_undo_restores s). demo_in_step.
Defined.

(** A stroke, an [undo], a clear and a [redo] on the small canvas. *)
Lemma snapshots_are_full_frames_witness :
  let s := demoRun (demoStroke ++ [CallUndo; CallClearCanvas; CallRedo]) in
  let full img :=
    width img = 2 /\ height img = 1 /\ length (data img) = 4 * (2 * 1) in
  full (bitmap s) /\ Forall full (undoStack s) /\ Forall full (redoStack s) /\
  (forall img, In img (undoStack s ++ redoStack s) ->
               putImageData img (bitmap s) = img).
Proof.
  intros s.
  exact (@snapshots_are_full_frames inkEndPoint noEncoder 2 1 true s
           (demoRun_reachable _)).
Defined.

(** The canvas sits at (7, 9) of the page; the finger goes from its left
    pixel to its right pixel. *)
Lemma touch_stroke_is_mouse_stroke_witness :
  handleTouchStart (mkTouch 7 9 7 9) demoMounted =
  startDrawing (mkMouse 0 0) demoMounted /\
  commitStroke inkEndPoint (TouchStroke (mkTouch 7 9 7 9) [mkTouch 8 9 7 9])
               demoMounted =
  commitStroke inkEndPoint (MouseStroke (mkMouse 0 0) [mkMouse 1 0])
               demoMounted.
Proof.
  apply (@touch_stroke_is_mouse_stroke inkEndPoint (mkTouch 7 9 7 9)
           [mkTouch 8 9 7 9] demoMounted).
  reflexivity.
Defined.

Lemma stroke_draws_polyline_witness :
  bitmap (commitStroke inkEndPoint
            (MouseStroke (mkMouse 0 0) [mkMouse 1 0; mkMouse 0 0])
            demoMounted) =
  strokePath inkEndPoint (pen demoMounted) (0, 0)%Z [(1, 0); (0, 0)]%Z
             (bitmap demoMounted).
Proof.
  apply (@stroke_draws_polyline inkEndPoint (mkMouse 0 0)
           [mkMouse 1 0; mkMouse 0 0] demoMounted).
  reflexivity.
Defined.

Lemma redo_then_undo_is_identity_witness :
  let s := demoRun (demoStroke ++ [CallUndo]) in
  redoStack s = [demoInked] /\
  exists s1, redo s = Returned s1 /\ undo s1 = Returned s.
Proof.
  intros s. split; [vm_compute; reflexivity|].
  apply (@redo_then_undo_is_identity s).
  - demo_in_step.
  - vm_compute. discriminate.
Defined.

Lemma undo_then_redo_copies_snapshot_witness :
  let s := demoRun demoStroke in
  undoStack s = [blank 2 1; demoInked] /\
  exists s1,
    undo s = Returned s1 /\
    redo s1 = Returned (set_undoStack ([] ++ [blank 2 1; blank 2 1]) s).
Proof.
  intros s. split; [vm_compute; reflexivity|].
  apply (@undo_then_redo_copies_snapshot s [] (blank 2 1) demoInked).
  - vm_compute. reflexivity.
  - vm_compute. reflexivity.
  - exact (reachable_invariant (demoRun_reachable _)).
  - vm_compute. reflexivity.
Defined.

(** Two strokes: three snapshots; two [undo]s reach the blank canvas, and
    five do no more. *)
Lemma undo_stops_at_oldest_witness :
  let s := demoRun (demoStroke ++ demoStrokeBack) in
  bitmap (undoTimes 5 s) = blank 2 1 /\
  undoStack (undoTimes 5 s) = [blank 2 1].
Proof.
  intros s.
  apply (@undo_stops_at_oldest s (blank 2 1)
           [demoInked; mkImageData 2 1 (repeat 255%Z 8)] 5).
  - demo_in_step.
  - vm_compute. reflexivity.
  - simpl. lia.
Defined.

(** After a stroke and an [undo] both buttons are as the operations
    are: [undo] has nothing left to do, [redo] has. *)
Lemma buttons_enabled_iff_effective_witness :
  let s := demoRun (demoStroke ++ [CallUndo]) in
  (canUndo s = false /\ canRedo s = true) /\
  (canUndo s = true <-> stateOf (undo s) <> s) /\
  (canRedo s = true <-> stateOf (redo s) <> s).
Proof.
  intros s. split; [split; vm_compute; reflexivity|].
  exact (@buttons_enabled_iff_effective inkEndPoint noEncoder (Some (2, 1))
           true s (demoRun_reachable _)).
Defined.

(** After a stroke: press, drag, pick red and thick, export, touch. *)
Lemma passive_calls_keep_history_witness :
  let s := demoRun demoStroke in
  let cs := [CallStartDrawing (mkMouse 0 0); CallDraw (mkMouse 1 0);
             PickColor "#ff0000"; PickWidth Width10;
             CallExportImage "2024-01-02T03:04:05.678Z";
             CallHandleTouchStart (mkTouch 7 9 7 9);
             CallHandleTouchMove (mkTouch 8 9 7 9)] in
  undoStack (exec inkEndPoint noEncoder cs s) = undoStack s /\
  redoStack (exec inkEndPoint noEncoder cs s) = redoStack s.
Proof.
  intros s cs.
  apply (@passive_calls_keep_history inkEndPoint noEncoder cs s).
  reflexivity.
Defined.

Lemma fileName_of_iso_time_witness :
  fileName "2024-01-02T03:04:05.678Z" = "drawing-20240102T030405.png"%string.
Proof.
  apply (@fileName_of_iso_time "2" "0" "2" "4" "0" "1" "0" "2" "0" "3" "0" "4"
           "0" "5" ".678Z").
  reflexivity.
Defined.
